(** * Travel-info server: a shallow embedding of [server.js]

    The resilient fetch ([fetchJSON]), the geocoding fallback chain
    ([geocodeCity]), the enrichment fan-out ([makeTravelInfoRequest]) and the
    batch runner ([processItems]) are written as functions in a small state
    and exception monad.  The state is the part of the process and of its
    surroundings that the code can see change: the clock, the rate gate's
    timestamp, the requests put on the wire and the number of random draws.
    What the JavaScript host and the network provide is gathered in the
    class [Host]; every statement below holds for every host. *)

From Stdlib Require Import ZArith List String Ascii Bool Lia.
From Stdlib Require Import Floats DecimalString.
Import ListNotations.
Open Scope string_scope.
Open Scope Z_scope.

(** ** JavaScript values

    JSON documents and the values the code builds from them.  An object holds
    its own properties in enumeration order; numbers are IEEE doubles; a
    string is the sequence of its code units, and a character of the source
    outside ASCII stands in a literal as the bytes of its UTF-8 form. *)

#[local] Unset Elimination Schemes.
Inductive value : Type :=
| VUndef
| VNull
| VBool (b : bool)
| VNum (x : float)
| VStr (s : string)
| VArr (l : list value)
| VObj (l : list (string * value)).
#[local] Set Elimination Schemes.

Definition truthy (v : value) : bool :=
  match v with
  | VUndef | VNull => false
  | VBool b => b
  | VNum x => negb (PrimFloat.is_zero x) && negb (PrimFloat.is_nan x)
  | VStr s => negb (String.eqb s "")
  | VArr _ | VObj _ => true
  end.

Definition nullish (v : value) : bool :=
  match v with
  | VUndef | VNull => true
  | _ => false
  end.

(** [a || b] *)
Definition or_else (a b : value) : value := if truthy a then a else b.

Fixpoint assoc (k : string) (l : list (string * value)) : value :=
  match l with
  | [] => VUndef
  | (k', v) :: l' => if String.eqb k k' then v else assoc k l'
  end.

(** [v.k] on a value that is neither [null] nor [undefined], for a property
    name [k] that is not an index and not ["length"]: only an object has
    such own properties. *)
Definition member (v : value) (k : string) : value :=
  match v with
  | VObj l => assoc k l
  | _ => VUndef
  end.

(** [v?.k] *)
Definition opt_member (v : value) (k : string) : value :=
  if nullish v then VUndef else member v k.

(** [v[0]] on a value that is neither [null] nor [undefined]. *)
Definition at0 (v : value) : value :=
  match v with
  | VArr (x :: _) => x
  | VStr (String c _) => VStr (String c "")
  | VObj l => assoc "0" l
  | _ => VUndef
  end.

(** [v?.[0]] *)
Definition opt_at0 (v : value) : value :=
  if nullish v then VUndef else at0 v.

(** The truth value of [v?.length]: the length of an array or of a string is
    a number, zero exactly when it is empty; an object answers with its own
    ["length"] property. *)
Definition has_length (v : value) : bool :=
  match v with
  | VArr l => negb (Nat.eqb (List.length l) 0)
  | VStr s => negb (String.eqb s "")
  | VObj l => truthy (assoc "length" l)
  | _ => false
  end.

(** [Object.entries(v)] and [Object.values(v)] on a truthy value. *)
Definition show_nat (n : nat) : string :=
  NilZero.string_of_uint (Nat.to_uint n).

Definition show_Z (z : Z) : string :=
  NilZero.string_of_int (Z.to_int z).

Fixpoint indexed (i : nat) (l : list value) : list (string * value) :=
  match l with
  | [] => []
  | x :: l' => (show_nat i, x) :: indexed (S i) l'
  end.

Fixpoint chars (s : string) : list value :=
  match s with
  | EmptyString => []
  | String c s' => VStr (String c "") :: chars s'
  end.

Definition Object_entries (v : value) : list (string * value) :=
  match v with
  | VObj l => l
  | VArr l => indexed 0 l
  | VStr s => indexed 0 (chars s)
  | _ => []
  end.

Definition Object_values (v : value) : list value :=
  map snd (Object_entries v).

(** ** Errors

    An error object: its name and message, the diagnostic fields that
    [explainFetchError] reads (kept in their printed form, the empty string
    for an absent or falsy one) and its cause. *)

Record Diag : Type := mkDiag {
  d_code : string;
  d_errno : string;
  d_address : string;
  d_port : string;
  d_syscall : string;
  d_host : string
}.

Definition no_diag : Diag := mkDiag "" "" "" "" "" "".

#[local] Unset Elimination Schemes.
Inductive Err : Type :=
| MkErr (name message : string) (own : Diag) (cause : option Err).
#[local] Set Elimination Schemes.

Definition err_message (e : Err) : string :=
  match e with MkErr _ m _ _ => m end.

(** [new Error(msg)] *)
Definition Error (msg : string) : Err := MkErr "Error" msg no_diag None.

(** [const err = new Error(msg); err.cause = e] *)
Definition Error_caused (msg : string) (e : Err) : Err :=
  MkErr "Error" msg no_diag (Some e).

(** The [TypeError] of reading property [k] of [null] or [undefined]. *)
Definition TypeError_read (v : value) (k : string) : Err :=
  MkErr "TypeError"
    ("Cannot read properties of "
       ++ (match v with VNull => "null" | _ => "undefined" end)
       ++ " (reading '" ++ k ++ "')") no_diag None.

(** The [TypeError] of calling something that is not a function. *)
Definition TypeError_call (what : string) : Err :=
  MkErr "TypeError" (what ++ " is not a function") no_diag None.

Fixpoint join (sep : string) (parts : list string) : string :=
  match parts with
  | [] => ""
  | [p] => p
  | p :: rest => p ++ sep ++ join sep rest
  end.

(** An error object is never falsy, so the first [return] of the source is
    not taken. *)
Definition explainFetchError (err : Err) : string :=
  match err with
  | MkErr name message own cause =>
      let parts := [if String.eqb message "" then name else message] in
      let c := match cause with
               | Some (MkErr _ _ d _) => d
               | None => own
               end in
      let field (label v : string) : list string :=
        if String.eqb v "" then [] else [label ++ v] in
      join " | "
        (parts
           ++ field "code=" (d_code c)
           ++ field "errno=" (d_errno c)
           ++ field "addr=" (d_address c)
           ++ field "port=" (d_port c)
           ++ field "syscall=" (d_syscall c)
           ++ field "host=" (d_host c))
  end.

(** ** Requests, responses and the host *)

(** A URL: the text given to [withQuery] and, when it went through a [URL]
    object, the search parameters set on it. *)
Record Url : Type := mkUrl {
  target : string;
  search : option (list (string * string))
}.

Record Request : Type := mkRequest {
  r_method : string;
  r_url : Url;
  r_headers : list (string * string);
  r_body : option value;
  r_timeoutMs : Z
}.

Inductive Res (A : Type) : Type :=
| Ok (a : A)
| Throw (e : Err).

Arguments Ok {A} a.
Arguments Throw {A} e.

(** A response: its status and what [res.text()] settles to. *)
Record Response : Type := mkResponse {
  status : Z;
  text : Res string
}.

(** What [fetch] settles to, and the time it took. *)
Record Reply : Type := mkReply {
  elapsed : Z;
  answer : Res Response
}.

Class Host : Type := {
  (** [String(v)], for a [v] that is not a string *)
  ToString : value -> string;
  (** the number a string converts to in a comparison *)
  ToNumber : string -> float;
  parseFloat : string -> float;
  toUpperCase : string -> string;
  trim : string -> string;
  encodeURIComponent : string -> string;
  (** [JSON.parse(text)], or the [SyntaxError] it throws *)
  JSON_parse : string -> Res value;
  (** [u.toString()] of the [URL] with these search parameters *)
  URL_href : string -> list (string * string) -> string;
  (** [toISOString()] and [getFullYear()] of the date at this instant *)
  toISOString : Z -> string;
  getFullYear : Z -> Z;
  (** [process.env.NOMINATIM_EMAIL] *)
  NOMINATIM_EMAIL : option string;
  (** the answer of the network to a request, after the requests before it *)
  network : list Request -> Request -> Reply;
  (** [Math.floor(Math.random() * 250)] at the n-th draw *)
  random250 : nat -> Z
}.

(** ** The state and the monad *)

Record World : Type := mkWorld {
  now : Z;                 (* the clock, in milliseconds *)
  lastGeocodeAt : Z;       (* the rate gate's timestamp *)
  sent : list Request;     (* the requests issued so far, oldest first *)
  draws : nat              (* the calls of Math.random so far *)
}.

(** ** The records the code builds *)

Record Geo : Type := mkGeo {
  name : value;
  country : value;
  country_code : value;
  latitude : value;
  longitude : value;
  timezone : value
}.

Record Weather : Type := mkWeather {
  current : value;
  daily : value
}.

Record Currency : Type := mkCurrency {
  code : string;
  c_name : value;
  symbol : value
}.

Record CountryInfo : Type := mkCountryInfo {
  nameOfficial : value;
  region : value;
  subregion : value;
  capital : value;
  currencies : list Currency;
  languages : list value;
  callingCode : value
}.

Record Holidays : Type := mkHolidays {
  year : Z;
  upcoming : list value;
  past : list value
}.

Record Exchange : Type := mkExchange {
  base : string;
  quote : string;
  rate : value
}.

Record Destination : Type := mkDestination {
  input : string;
  resolvedName : value;
  d_country : value;
  countryCode : value;
  coordinates : value * value;
  d_timezone : value
}.

Record Bundle : Type := mkBundle {
  destination : Destination;
  weather : option Weather;
  countryInfo : option CountryInfo;
  holidays : option Holidays;
  exchange : option Exchange;
  sources : list string
}.

Record Outcome : Type := mkOutcome {
  originalItem : value;
  processed : bool;
  o_status : string;
  error : option string;
  processedAt : string;
  data : option Bundle
}.

(** What a promise settles to. *)
Inductive Settled (A : Type) : Type :=
| Fulfilled (v : A)
| Rejected (e : Err).

Arguments Fulfilled {A} v.
Arguments Rejected {A} e.

Definition M (A : Type) : Type := World -> Res A * World.

Definition ret {A} (a : A) : M A := fun w => (Ok a, w).

Definition throw {A} (e : Err) : M A := fun w => (Throw e, w).

Definition bind {A B} (m : M A) (k : A -> M B) : M B :=
  fun w =>
    match m w with
    | (Ok a, w') => k a w'
    | (Throw e, w') => (Throw e, w')
    end.

(** [try { m } catch (err) { h err }] *)
Definition try_catch {A} (m : M A) (h : Err -> M A) : M A :=
  fun w =>
    match m w with
    | (Ok a, w') => (Ok a, w')
    | (Throw e, w') => h e w'
    end.

Declare Scope monad_scope.
Delimit Scope monad_scope with monad.
Notation "x <- m ;; k" := (bind m (fun x => k))
  (at level 61, m at next level, right associativity) : monad_scope.
Notation "m ;;; k" := (bind m (fun _ => k))
  (at level 61, right associativity) : monad_scope.
Open Scope monad_scope.

(** Lifting a result. *)
Definition lift {A} (r : Res A) : M A := fun w => (r, w).

(** [v.k], which throws on [null] and [undefined]. *)
Definition get (v : value) (k : string) : Res value :=
  if nullish v then Throw (TypeError_read v k) else Ok (member v k).

Definition Date_now : M Z := fun w => (Ok (now w), w).

(** [await sleep(ms)]: the clock is [ms] later when the caller goes on. *)
Definition sleep (ms : Z) : M unit :=
  fun w => (Ok tt, mkWorld (now w + ms) (lastGeocodeAt w) (sent w) (draws w)).

Definition get_lastGeocodeAt : M Z := fun w => (Ok (lastGeocodeAt w), w).

Definition set_lastGeocodeAt (t : Z) : M unit :=
  fun w => (Ok tt, mkWorld (now w) t (sent w) (draws w)).

Section Program.

Context {host : Host}.

(** [String(v)], on the values that it converts without throwing. *)
Definition String_ (v : value) : string :=
  match v with
  | VStr s => s
  | _ => ToString v
  end.

(** [Math.floor(Math.random() * 250)] *)
Definition jitter : M Z :=
  fun w => (Ok (random250 (draws w)),
            mkWorld (now w) (lastGeocodeAt w) (sent w) (S (draws w))).

(** [await fetch(finalUrl, init)]: the request goes on the wire and the
    network answers; a call cut short by the abort timer is one of the
    failures the network answers with. *)
Definition fetch (req : Request) : M Response :=
  fun w =>
    let rep := network (sent w) req in
    (answer rep,
     mkWorld (now w + elapsed rep) (lastGeocodeAt w) (sent w ++ [req]) (draws w)).

(** *** Utils *)

(** [searchParams.set(k, v)]: the first entry named [k] takes the value and
    the others named [k] go; without one the entry is appended.  The same
    shape serves for a key assigned in an object literal with spreads. *)
Fixpoint drop_key (k : string) (q : list (string * string))
  : list (string * string) :=
  match q with
  | [] => []
  | (k', v') :: q' =>
      if String.eqb k k' then drop_key k q' else (k', v') :: drop_key k q'
  end.

Fixpoint set_key (k v : string) (q : list (string * string))
  : list (string * string) :=
  match q with
  | [] => [(k, v)]
  | (k', v') :: q' =>
      if String.eqb k k' then (k, v) :: drop_key k q'
      else (k', v') :: set_key k v q'
  end.

(** [withQuery], on a text that [new URL] accepts and that carries no query
    string of its own, as the URLs of the program are, and for parameter
    values that [String] converts without throwing: the loop over the
    parameters starts from the empty query. *)
Definition withQuery (url : string) (params : option (list (string * value)))
  : Url :=
  match params with
  | None => mkUrl url None
  | Some [] => mkUrl url None
  | Some ps =>
      mkUrl url
        (Some (fold_left
                 (fun q kv =>
                    if nullish (snd kv) then q
                    else set_key (fst kv) (String_ (snd kv)) q)
                 ps []))
  end.

(** The text of a URL, as it appears in messages. *)
Definition href (u : Url) : string :=
  match search u with
  | None => target u
  | Some q => URL_href (target u) q
  end.

(** *** Fetch JSON with timeout and exponential retries *)

Record Options : Type := mkOptions {
  method : string;
  params : option (list (string * value));
  headers : list (string * string);
  body : value;
  timeoutMs : Z;
  retries : Z;
  baseDelayMs : Z
}.

Definition defaults : Options :=
  mkOptions "GET" None [] VUndef 12000 4 350.

(** The options of a call that gives [params], [timeoutMs] and [headers]. *)
Definition options (ps : list (string * value)) (timeout : Z)
  (hs : list (string * string)) : Options :=
  mkOptions "GET" (Some ps) hs VUndef timeout 4 350.

(** The request of an attempt; its body is kept as the value that
    [JSON.stringify] is given. *)
Definition request (o : Options) (finalUrl : Url) : Request :=
  mkRequest (method o) finalUrl
    (fold_left (fun hs kv => set_key (fst kv) (snd kv) hs)
       ((if truthy (body o) then [("Content-Type", "application/json")]
         else []) ++ headers o)
       [("User-Agent", "TravelInfo/1.0 (+contato@seudominio.com)");
        ("Accept", "application/json")])
    (if truthy (body o) then Some (body o) else None)
    (timeoutMs o).

Definition res_ok (res : Response) : bool :=
  (200 <=? status res) && (status res <=? 299).

Definition retryable_status (s : Z) : bool :=
  existsb (Z.eqb s) [408; 425; 429; 500; 502; 503; 504].

(** The regular expression of [fetchJSON], matched without regard to case. *)
Definition lower (c : ascii) : ascii :=
  let n := nat_of_ascii c in
  if (Nat.leb 65 n && Nat.leb n 90)%bool then ascii_of_nat (n + 32) else c.

Fixpoint starts_ci (p s : string) : bool :=
  match p, s with
  | EmptyString, _ => true
  | String a p', String b s' => Ascii.eqb (lower a) (lower b) && starts_ci p' s'
  | String _ _, EmptyString => false
  end.

Fixpoint contains_ci (p s : string) : bool :=
  starts_ci p s
  || match s with
     | EmptyString => false
     | String _ s' => contains_ci p s'
     end.

Definition transient_message (msg : string) : bool :=
  existsb (fun p => contains_ci p msg)
    ["abort"; "timed out"; "ECONNRESET"; "ECONNREFUSED"; "EAI_AGAIN";
     "ETIMEDOUT"; "socket hang up"; "Client network socket disconnected"].

(** How one turn of the loop ends when it neither returns nor throws: with
    the error kept in [lastErr]. *)
Inductive Step : Type :=
| Done (v : value)
| Again (lastErr : Err).

(** The [try / catch / finally] of one attempt.  Clearing the timer in
    [finally] changes nothing that is observed here. *)
Definition attempt_once (o : Options) (finalUrl : Url) (attempt : Z) : M Step :=
  try_catch
    (res <- fetch (request o finalUrl) ;;
     if res_ok res then
       txt <- lift (text res) ;;
       match JSON_parse txt with
       | Ok v => ret (Done v)
       | Throw e =>
           let err := Error_caused ("JSON inválido de " ++ href finalUrl) e in
           if attempt =? retries o then throw err else ret (Again err)
       end
     else
       let retryable := retryable_status (status res) in
       if negb retryable || (attempt =? retries o) then
         let bodyTxt := match text res with Ok t => t | Throw _ => "" end in
         throw (Error ("HTTP " ++ show_Z (status res) ++ " em " ++ href finalUrl
                         ++ (if String.eqb bodyTxt "" then ""
                             else " - " ++ substring 0 200 bodyTxt)))
       else
         ret (Again (Error ("HTTP " ++ show_Z (status res) ++ " (tentativa "
                              ++ show_Z (attempt + 1) ++ "/"
                              ++ show_Z (retries o + 1) ++ ")"))))
    (fun err =>
       let msg := explainFetchError err in
       let transient := transient_message msg in
       if negb transient && (attempt =? retries o) then throw (Error msg)
       else if attempt =? retries o then throw (Error msg)
       else ret (Again err)).

(** The loop [for (attempt = 0; attempt <= retries; attempt++)], with [n]
    turns left; [retries] is an integer, as it is at every call. *)
Fixpoint attempts (o : Options) (finalUrl : Url) (n : nat) (attempt : Z)
  (lastErr : option Err) : M value :=
  match n with
  | O =>
      throw (match lastErr with
             | Some e => e
             | None => Error "Falha desconhecida"
             end)
  | S n' =>
      s <- attempt_once o finalUrl attempt ;;
      match s with
      | Done v => ret v
      | Again e =>
          j <- jitter ;;
          sleep (baseDelayMs o * 2 ^ attempt + j) ;;;
          attempts o finalUrl n' (attempt + 1) (Some e)
      end
  end.

Definition fetchJSON (url : string) (o : Options) : M value :=
  attempts o (withQuery url (params o)) (Z.to_nat (retries o + 1)) 0 None.

(** *** Geocoding: rate limit and fallbacks *)

Definition GEOCODE_MIN_INTERVAL_MS : Z := 1200.

Definition waitGeocodeSlot : M unit :=
  t <- Date_now ;;
  last <- get_lastGeocodeAt ;;
  let wait := Z.max 0 (last + GEOCODE_MIN_INTERVAL_MS - t) in
  (if wait =? 0 then ret tt else sleep wait) ;;;
  t' <- Date_now ;;
  set_lastGeocodeAt t'.

(** [(v || '').toUpperCase() || dflt]: only a string has [toUpperCase]. *)
Definition upper_or (v dflt : value) : Res value :=
  match or_else v (VStr "") with
  | VStr s => Ok (or_else (VStr (toUpperCase s)) dflt)
  | _ => Throw (TypeError_call "(intermediate value).toUpperCase")
  end.

(** [s.split(',')[0]] *)
Fixpoint first_segment (s : string) : string :=
  match s with
  | EmptyString => EmptyString
  | String c s' =>
      if Ascii.eqb c ","%char then EmptyString else String c (first_segment s')
  end.

(** [v?.split(',')[0] || city]: only a string has [split]. *)
Definition short_name (v : value) (city : string) : Res value :=
  match v with
  | VUndef | VNull => Ok (VStr city)
  | VStr s => Ok (or_else (VStr (first_segment s)) (VStr city))
  | _ => Throw (TypeError_call "r.display_name?.split")
  end.

Definition env_email : value :=
  match NOMINATIM_EMAIL with
  | Some s => VStr s
  | None => VUndef
  end.

Definition url_open_meteo : string :=
  "https://geocoding-api.open-meteo.com/v1/search".
Definition url_nominatim_search : string :=
  "https://nominatim.openstreetmap.org/search".
Definition url_nominatim_reverse : string :=
  "https://nominatim.openstreetmap.org/reverse".
Definition url_maps_co : string := "https://geocode.maps.co/search".

(** 1) Open-Meteo: the body of the first [try]. *)
Definition open_meteo_options (city : string) : Options :=
  options [("name", VStr city); ("count", VNum 1);
           ("language", VStr "pt"); ("format", VStr "json")]
    12000 [].

Definition searchOpenMeteo (city : string) : M (option Geo) :=
  data <- fetchJSON url_open_meteo (open_meteo_options city) ;;
  if has_length (opt_member data "results") then
    let r := at0 (member data "results") in
    r_name <- lift (get r "name") ;;
    r_country <- lift (get r "country") ;;
    r_cc <- lift (get r "country_code") ;;
    r_lat <- lift (get r "latitude") ;;
    r_lon <- lift (get r "longitude") ;;
    r_tz <- lift (get r "timezone") ;;
    ret (Some (mkGeo r_name r_country r_cc r_lat r_lon r_tz))
  else ret None.

(** The reverse lookup that recovers a missing country code; its failure is
    swallowed and leaves [cc] as it was. *)
Definition reverseCountryCode (lat lon : float) (cc : value) : M value :=
  waitGeocodeSlot ;;;
  try_catch
    (rev <- fetchJSON url_nominatim_reverse
              (options [("lat", VNum lat); ("lon", VNum lon);
                        ("format", VStr "jsonv2"); ("addressdetails", VNum 1);
                        ("accept-language", VStr "pt"); ("email", env_email)]
                 12000 [("Accept-Language", "pt")]) ;;
     lift (upper_or (opt_member (opt_member rev "address") "country_code") cc))
    (fun _ => ret cc).

(** What the second and the third [try] do with the answer of their search:
    the two blocks are the same code. *)
Definition fromNominatim (city : string) (data : value) : M (option Geo) :=
  match data with
  | VArr (r :: _) =>
      r_lat <- lift (get r "lat") ;;
      let lat := parseFloat (String_ r_lat) in
      r_lon <- lift (get r "lon") ;;
      let lon := parseFloat (String_ r_lon) in
      r_address <- lift (get r "address") ;;
      cc0 <- lift (upper_or (opt_member r_address "country_code") VNull) ;;
      let country := or_else (opt_member r_address "country") VNull in
      cc <- (if negb (truthy cc0) && PrimFloat.is_finite lat
                && PrimFloat.is_finite lon
             then reverseCountryCode lat lon cc0
             else ret cc0) ;;
      r_display <- lift (get r "display_name") ;;
      short <- lift (short_name r_display city) ;;
      ret (Some (mkGeo short (or_else country VNull) cc (VNum lat) (VNum lon)
                   VNull))
  | _ => ret None
  end.

(** 2) Nominatim: the body of the second [try]. *)
Definition nominatim_options (city : string) : Options :=
  let nomParams :=
    ([("q", VStr city); ("format", VStr "jsonv2"); ("addressdetails", VNum 1);
      ("limit", VNum 1); ("accept-language", VStr "pt")]
       ++ (if truthy env_email then [("email", env_email)] else []))%list in
  options nomParams 15000 [("Accept-Language", "pt")].

Definition searchNominatim (city : string) : M (option Geo) :=
  data2 <- fetchJSON url_nominatim_search (nominatim_options city) ;;
  fromNominatim city data2.

(** 3) geocode.maps.co: the body of the third [try]. *)
Definition maps_co_options (city : string) : Options :=
  options [("q", VStr city); ("limit", VNum 1)] 12000
    [("Accept-Language", "pt")].

Definition searchMapsCo (city : string) : M (option Geo) :=
  data3 <- fetchJSON url_maps_co (maps_co_options city) ;;
  fromNominatim city data3.

(** [try { ... } catch (_) { }]: a provider that throws has found nothing. *)
Definition swallow (m : M (option Geo)) : M (option Geo) :=
  try_catch m (fun _ => ret None).

Definition geocodeCity (city : string) : M (option Geo) :=
  a <- swallow (searchOpenMeteo city) ;;
  match a with
  | Some g => ret (Some g)
  | None =>
      waitGeocodeSlot ;;;
      b <- swallow (searchNominatim city) ;;
      match b with
      | Some g => ret (Some g)
      | None =>
          waitGeocodeSlot ;;;
          c <- swallow (searchMapsCo city) ;;
          match c with
          | Some g => ret (Some g)
          | None => ret None
          end
      end
  end.

(** *** The other integrations *)

(** The options of a call that gives only [timeoutMs]. *)
Definition options_timeout (timeout : Z) : Options :=
  mkOptions "GET" None [] VUndef timeout 4 350.

Definition getWeather (lat lon tz : value) : M Weather :=
  data <- fetchJSON "https://api.open-meteo.com/v1/forecast"
            (options
               [("latitude", lat); ("longitude", lon);
                ("daily",
                 VStr (join ","
                         ["temperature_2m_max"; "temperature_2m_min";
                          "precipitation_sum"; "windspeed_10m_max"]));
                ("current_weather", VBool true);
                ("timezone", or_else tz (VStr "auto"));
                ("forecast_days", VNum 7)]
               12000 []) ;;
  ret (mkWeather (or_else (opt_member data "current_weather") VNull)
         (or_else (opt_member data "daily") VNull)).

(** [Object.entries(c.currencies).map(([code, v]) => ...)]: reading [v.name]
    throws when [v] is [null]. *)
Fixpoint currencies_of (entries : list (string * value)) : Res (list Currency) :=
  match entries with
  | [] => Ok []
  | (k, v) :: rest =>
      match get v "name", get v "symbol" with
      | Ok n, Ok s =>
          match currencies_of rest with
          | Ok cs => Ok (mkCurrency k n s :: cs)
          | Throw e => Throw e
          end
      | Throw e, _ => Throw e
      | _, Throw e => Throw e
      end
  end.

Definition getCountryInfo (iso2 : value) : M (option CountryInfo) :=
  if negb (truthy iso2) then ret None
  else
    data <- fetchJSON ("https://restcountries.com/v3.1/alpha/"
                         ++ encodeURIComponent (String_ iso2))
              (options_timeout 12000) ;;
    let c := match data with VArr _ => at0 data | _ => data end in
    cs <- lift (if truthy (opt_member c "currencies")
                then currencies_of (Object_entries (member c "currencies"))
                else Ok []) ;;
    let ls := if truthy (opt_member c "languages")
              then Object_values (member c "languages") else [] in
    let idd := opt_member c "idd" in
    ret (Some (mkCountryInfo
                 (opt_member (opt_member c "name") "official")
                 (opt_member c "region")
                 (opt_member c "subregion")
                 (or_else (opt_at0 (opt_member c "capital")) VNull)
                 cs ls
                 (if truthy (opt_member idd "root")
                     && truthy (opt_at0 (opt_member idd "suffixes"))
                  then VStr (String_ (member idd "root")
                               ++ String_ (at0 (member idd "suffixes")))
                  else VNull))).

(** The number a value converts to in a comparison with a string. *)
Definition to_number (v : value) : float :=
  match v with
  | VNull => 0
  | VBool b => if b then 1 else 0
  | VNum x => x
  | VStr s => ToNumber s
  | _ => PrimFloat.nan
  end.

(** [d < today] and [d >= today] for a string [today]: two strings compare
    by their code units, an array or an object first turns into a string,
    and anything else compares as a number with the number of [today]. *)
Definition lt_date (today : string) (d : value) : bool :=
  match d with
  | VStr s => String.ltb s today
  | VArr _ | VObj _ => String.ltb (ToString d) today
  | _ => PrimFloat.ltb (to_number d) (ToNumber today)
  end.

Definition ge_date (today : string) (d : value) : bool :=
  match d with
  | VStr s => negb (String.ltb s today)
  | VArr _ | VObj _ => negb (String.ltb (ToString d) today)
  | _ => PrimFloat.leb (ToNumber today) (to_number d)
  end.

(** [data.filter(h => p(h.date))]: only an array has [filter], and reading
    [h.date] throws when [h] is [null]. *)
Fixpoint filter_by_date (p : value -> bool) (l : list value)
  : Res (list value) :=
  match l with
  | [] => Ok []
  | h :: l' =>
      match get h "date" with
      | Throw e => Throw e
      | Ok d =>
          match filter_by_date p l' with
          | Throw e => Throw e
          | Ok r => Ok (if p d then h :: r else r)
          end
      end
  end.

Definition data_filter (p : value -> bool) (data : value) : Res (list value) :=
  match data with
  | VArr l => filter_by_date p l
  | VUndef | VNull => Throw (TypeError_read data "filter")
  | _ => Throw (TypeError_call "data.filter")
  end.

(** [l.slice(start, stop)], a negative index counting from the end. *)
Definition slice {A} (start : Z) (stop : option Z) (l : list A) : list A :=
  let len := Z.of_nat (List.length l) in
  let rel i := if i <? 0 then Z.max (len + i) 0 else Z.min i len in
  let k := rel start in
  let final := match stop with Some e => rel e | None => len end in
  firstn (Z.to_nat (Z.max (final - k) 0)) (skipn (Z.to_nat k) l).

Definition holidays_url (year : Z) (iso2 : value) : string :=
  "https://date.nager.at/api/v3/PublicHolidays/"
    ++ show_Z year ++ "/" ++ encodeURIComponent (String_ iso2).

Definition getHolidays (iso2 : value) : M (option Holidays) :=
  if negb (truthy iso2) then ret None
  else
    t <- Date_now ;;
    let year := getFullYear t in
    data <- fetchJSON (holidays_url year iso2) (options_timeout 12000) ;;
    t' <- Date_now ;;
    let today := substring 0 10 (toISOString t') in
    up <- lift (data_filter (ge_date today) data) ;;
    let upcoming := slice 0 (Some 5) up in
    pa <- lift (data_filter (lt_date today) data) ;;
    let past := slice (-5) None pa in
    ret (Some (mkHolidays year upcoming past)).

Definition url_exchange : string := "https://api.exchangerate.host/latest".

Definition exchange_options (base : value) (quote : string) : Options :=
  options [("base", base); ("symbols", VStr quote)] 10000 [].

Definition getExchangeRate (base : value) (quote : string) : M value :=
  if negb (truthy base) then ret VNull
  else
    data <- fetchJSON url_exchange (exchange_options base quote) ;;
    ret (or_else (opt_member (opt_member data "rates") quote) VNull).

(** *** Core *)

(** [info?.currencies?.[0]?.code] *)
Definition first_currency_code (info : option CountryInfo) : value :=
  match info with
  | Some i =>
      match currencies i with
      | c :: _ => VStr (code c)
      | [] => VUndef
      end
  | None => VUndef
  end.

(** The fourth branch, the [async] arrow function. *)
Definition exchangeBranch (country_code : value) : M value :=
  info <- getCountryInfo country_code ;;
  let currencyCode := or_else (first_currency_code info) VNull in
  if truthy currencyCode then getExchangeRate currencyCode "BRL"
  else ret VNull.

(** One element of [Promise.allSettled]: the branch runs to its end and its
    failure becomes a value.  The four branches are run one after the other,
    in the order in which the array starts them; a branch sees nothing of the
    others but the answers the network gives to its own requests, and the
    network is free to answer each request as it likes.  In the code the
    branches start together and their requests interleave after the first
    of each: the order of the requests in [sent] and the clock are those of
    this sequential run, and the settled results are those of the code for
    every network whose answers do not hang on that order. *)
Definition settle {A} (m : M A) : M (Settled A) :=
  fun w =>
    match m w with
    | (Ok a, w') => (Ok (Fulfilled a), w')
    | (Throw e, w') => (Ok (Rejected e), w')
    end.

Definition source_list : list string :=
  ["https://nominatim.openstreetmap.org/";
   "https://geocode.maps.co/";
   "https://open-meteo.com/en/docs";
   "https://restcountries.com/";
   "https://date.nager.at";
   "https://exchangerate.host"].

(** What [makeTravelInfoRequest] returns, from the four settled branches. *)
Definition assemble (city : string) (geo : Geo)
  (weatherRes : Settled Weather) (countryRes : Settled (option CountryInfo))
  (holidaysRes : Settled (option Holidays)) (fxRes : Settled value) : Bundle :=
  let countryInfo :=
    match countryRes with Fulfilled v => v | Rejected _ => None end in
  let fxRate := match fxRes with Fulfilled v => v | Rejected _ => VNull end in
  let weather :=
    match weatherRes with Fulfilled v => Some v | Rejected _ => None end in
  let holidays :=
    match holidaysRes with Fulfilled v => v | Rejected _ => None end in
  mkBundle
    (mkDestination city (name geo) (country geo) (country_code geo)
       (latitude geo, longitude geo) (timezone geo))
    weather countryInfo holidays
    (if truthy fxRate && truthy (first_currency_code countryInfo)
     then match countryInfo with
          | Some i =>
              match currencies i with
              | c :: _ => Some (mkExchange (code c) "BRL" fxRate)
              | [] => None
              end
          | None => None
          end
     else None)
    source_list.

Definition dquote : string :=
  String (Ascii false true false false false true false false) "".

Definition makeTravelInfoRequest (city : string) : M Bundle :=
  geo <- geocodeCity city ;;
  match geo with
  | None =>
      throw (Error ("Não foi possível geocodificar " ++ dquote ++ city ++ dquote))
  | Some g =>
      weatherRes <- settle (getWeather (latitude g) (longitude g) (timezone g)) ;;
      countryRes <- settle (getCountryInfo (country_code g)) ;;
      holidaysRes <- settle (getHolidays (country_code g)) ;;
      fxRes <- settle (exchangeBranch (country_code g)) ;;
      ret (assemble city g weatherRes countryRes holidaysRes fxRes)
  end.

(** [new Date().toISOString()] *)
Definition timestamp : M string :=
  t <- Date_now ;; ret (toISOString t).

(** The loop of [processItems] over the items not yet visited, [results]
    holding the outcomes pushed so far. *)
Fixpoint processLoop (items : list value) (results : list Outcome)
  : M (list Outcome) :=
  match items with
  | [] => ret results
  | item :: rest =>
      let city := trim (String_ (or_else item (VStr ""))) in
      if String.eqb city "" then
        at_ <- timestamp ;;
        processLoop rest
          (results ++ [mkOutcome item false "error"
                         (Some "Destino vazio/ inválido") at_ None])
      else
        pushed <- try_catch
                    (data <- makeTravelInfoRequest city ;;
                     at_ <- timestamp ;;
                     ret (results ++ [mkOutcome (VStr city) true "success" None
                                        at_ (Some data)])%list)
                    (fun err =>
                       at_ <- timestamp ;;
                       ret (results ++ [mkOutcome (VStr city) false "error"
                                          (Some (explainFetchError err)) at_
                                          None])%list) ;;
        processLoop rest pushed
  end.

Definition processItems (items : list value) : M (list Outcome) :=
  processLoop items [].

End Program.

(** ** The endpoints and the health probes *)

(** What [externalHealthcheck] returns: [{ ok: true, url, status }] or
    [{ ok: false }]. *)
Inductive Health : Type :=
| Reachable (url : string) (probe_status : Z)
| Unreachable.

(** One line of the report of [/health/apis]: [{ name, status }] or
    [{ name, error }]. *)
Inductive ApiCheck : Type :=
| Answered (api : string) (api_status : Z)
| Unanswered (api : string) (api_error : string).

(** The JSON documents the endpoints answer with. *)
Inductive Payload : Type :=
| ItemsMissing (msg : string) (example : list string)
| ItemsEmpty (msg : string)
| NoInternet (msg hint : string) (details : Health)
| Processed (totalItems : Z) (results : list Outcome)
| InternalError (msg explanation : string)
| ExternalUp (probe : Health)
| ExternalDown (msg : string)
| ApisReport (checks : list ApiCheck).

Record HttpResponse : Type := mkHttp {
  statusCode : Z;
  json : Payload
}.

(** The request of a bare [fetch(url, { method: 'GET', signal, headers })]. *)
Definition bare_request (url : string) (hs : list (string * string))
  (timeout : Z) : Request :=
  mkRequest "GET" (mkUrl url None) hs None timeout.

(** [(e && e.message) || String(e)] for an error object. *)
Definition error_text (e : Err) : string :=
  match e with
  | MkErr n m _ _ => if String.eqb m "" then n else m
  end.

(** The [TypeError] of [const { items } = req.body] on a body that is [null]
    or [undefined]. *)
Definition TypeError_destructure (v : value) : Err :=
  MkErr "TypeError"
    ("Cannot destructure property 'items' of 'req.body' as it is "
       ++ (match v with VNull => "null" | _ => "undefined" end) ++ ".")
    no_diag None.

Section Endpoints.

Context {host : Host}.

Definition health_tests : list (string * Z) :=
  [("https://www.google.com/generate_204", 204);
   ("https://cloudflare.com/cdn-cgi/trace", 200)].

(** The loop of [externalHealthcheck] over the tests not yet tried. *)
Fixpoint probeAll (tests : list (string * Z)) : M Health :=
  match tests with
  | [] => ret Unreachable
  | (url, expected) :: rest =>
      hit <- try_catch
               (res <- fetch (bare_request url [] 5000) ;;
                if status res =? expected
                then ret (Some (Reachable url (status res)))
                else ret None)
               (fun _ => ret None) ;;
      match hit with
      | Some h => ret h
      | None => probeAll rest
      end
  end.

Definition externalHealthcheck : M Health := probeAll health_tests.

(** [GET /health/external] *)
Definition getHealthExternal : M HttpResponse :=
  ok <- externalHealthcheck ;;
  match ok with
  | Reachable _ _ => ret (mkHttp 200 (ExternalUp ok))
  | Unreachable =>
      ret (mkHttp 503
             (ExternalDown
                "Sem acesso externo. Verifique proxy/firewall/DNS."))
  end.

(** [GET /health/apis] *)
Definition api_checks (year : Z) : list (string * string) :=
  [("open-meteo-geocode",
    "https://geocoding-api.open-meteo.com/v1/search?name=Lisboa&count=1&format=json");
   ("open-meteo-forecast",
    "https://api.open-meteo.com/v1/forecast?latitude=38.72&longitude=-9.14&current_weather=true&forecast_days=1");
   ("restcountries", "https://restcountries.com/v3.1/alpha/PT");
   ("nager-date",
    "https://date.nager.at/api/v3/PublicHolidays/" ++ show_Z year ++ "/PT");
   ("exchangerate-host",
    "https://api.exchangerate.host/latest?base=EUR&symbols=BRL");
   ("nominatim-fallback",
    "https://nominatim.openstreetmap.org/search?q=Lisboa&format=jsonv2&addressdetails=1&limit=1")].

Fixpoint checkAll (checks : list (string * string)) (results : list ApiCheck)
  : M (list ApiCheck) :=
  match checks with
  | [] => ret results
  | (api, url) :: rest =>
      pushed <- try_catch
                  (r <- fetch (bare_request url [("Accept-Language", "pt")]
                                 8000) ;;
                   ret (results ++ [Answered api (status r)])%list)
                  (fun e => ret (results ++ [Unanswered api (error_text e)])%list) ;;
      checkAll rest pushed
  end.

Definition getHealthApis : M HttpResponse :=
  t <- Date_now ;;
  results <- checkAll (api_checks (getFullYear t)) [] ;;
  ret (mkHttp 200 (ApisReport results)).

(** [POST /process], from the parsed body of the request. *)
Definition postProcess (req_body : value) : M HttpResponse :=
  try_catch
    (items <- lift (if nullish req_body
                    then Throw (TypeError_destructure req_body)
                    else Ok (member req_body "items")) ;;
     match items with
     | VArr [] =>
         ret (mkHttp 400
                (ItemsEmpty
                   ("Array " ++ dquote ++ "items" ++ dquote
                      ++ " não pode estar vazio")))
     | VArr l =>
         net <- externalHealthcheck ;;
         match net with
         | Unreachable =>
             ret (mkHttp 503
                    (NoInternet "Sem acesso à internet a partir do servidor"
                       "Configure proxy/firewall/DNS ou rode local com egress liberado"
                       net))
         | Reachable _ _ =>
             results <- processItems l ;;
             ret (mkHttp 200
                    (Processed (Z.of_nat (List.length l)) results))
         end
     | _ =>
         ret (mkHttp 400
                (ItemsMissing
                   ("Campo " ++ dquote ++ "items" ++ dquote
                      ++ " é obrigatório e deve ser um array")
                   ["Lisboa"; "Buenos Aires"; "Tokyo"]))
     end)
    (fun error =>
       ret (mkHttp 500
              (InternalError "Erro interno do servidor"
                 (explainFetchError error)))).

End Endpoints.

(** * The vocabulary of the statements *)

(** ** What a computation puts on the wire, and whether it returns

    [sends P m]: whatever the world, running [m] only adds requests that
    satisfy [P] to the requests issued, and removes none.
    [keeps_gate m]: running [m] leaves the rate gate's timestamp alone.
    [returns m]: whatever the world, [m] ends with a value and throws
    nothing. *)

Definition only_sent (P : Request -> Prop) (w w' : World) : Prop :=
  exists new, sent w' = (sent w ++ new)%list /\ Forall P new.

Definition sends {A} (P : Request -> Prop) (m : M A) : Prop :=
  forall w, only_sent P w (snd (m w)).

Definition keeps_gate {A} (m : M A) : Prop :=
  forall w, lastGeocodeAt (snd (m w)) = lastGeocodeAt w.

Definition returns {A} (m : M A) : Prop :=
  forall w, exists a w', m w = (Ok a, w').

(** What a provider's block has found when it found no place: it threw, or
    it returned nothing. *)
Definition finds_nothing {A} (r : Res (option A)) : Prop :=
  match r with
  | Ok (Some _) => False
  | _ => True
  end.

(** The answers of the first provider that hold no usable result: a failure
    of the request, an answer without a result set or with an empty one, and
    a result set whose first entry is [null]. *)
Definition no_result (a : Res value) : Prop :=
  match a with
  | Throw _ => True
  | Ok data =>
      has_length (opt_member data "results") = false
      \/ nullish (at0 (member data "results")) = true
  end.

(** The same for the second and the third provider: a failure of the
    request, an answer that is not an array or is an empty one, and an array
    whose first record is [null]. *)
Definition no_record (a : Res value) : Prop :=
  match a with
  | Ok (VArr (r :: _)) => nullish r = true
  | _ => True
  end.

(** The place the first block builds from the first result [r]. *)
Definition geo_of_result (r : value) : Geo :=
  mkGeo (member r "name") (member r "country") (member r "country_code")
    (member r "latitude") (member r "longitude") (member r "timezone").

Definition to_nominatim (q : Request) : Prop :=
  target (r_url q) = url_nominatim_search
  \/ target (r_url q) = url_nominatim_reverse.

Definition not_geocoded (city : string) : Err :=
  Error ("Não foi possível geocodificar " ++ dquote ++ city ++ dquote).

(** The bundle field of a branch whose value is the field. *)
Definition value_or_null {A} (r : Settled (option A)) : option A :=
  match r with
  | Fulfilled v => v
  | Rejected _ => None
  end.

Section Vocabulary.

Context {host : Host}.

(** The four branches of [Promise.allSettled], from the world [w1] that the
    geocoding left to the world [w5] in which all four have settled. *)
Definition enrichment_run (g : Geo) (w1 : World)
  (weatherRes : Settled Weather) (countryRes : Settled (option CountryInfo))
  (holidaysRes : Settled (option Holidays)) (fxRes : Settled value)
  (w5 : World) : Prop :=
  exists w2 w3 w4,
    settle (getWeather (latitude g) (longitude g) (timezone g)) w1
    = (Ok weatherRes, w2)
    /\ settle (getCountryInfo (country_code g)) w2 = (Ok countryRes, w3)
    /\ settle (getHolidays (country_code g)) w3 = (Ok holidaysRes, w4)
    /\ settle (exchangeBranch (country_code g)) w4 = (Ok fxRes, w5).

(** The destination an item names: [String(items[i] || '').trim()]. *)
Definition city_of (item : value) : string :=
  trim (String_ (or_else item (VStr ""))).

Definition blank_outcome (item : value) (at_ : string) : Outcome :=
  mkOutcome item false "error" (Some "Destino vazio/ inválido") at_ None.

Definition success_outcome (city : string) (b : Bundle) (at_ : string)
  : Outcome :=
  mkOutcome (VStr city) true "success" None at_ (Some b).

Definition failure_outcome (city : string) (e : Err) (at_ : string)
  : Outcome :=
  mkOutcome (VStr city) false "error" (Some (explainFetchError e)) at_ None.

(** One turn of the loop: the outcome it pushes and the world it leaves. *)
Inductive item_step (item : value) (w : World) : Outcome -> World -> Prop :=
| step_blank :
    city_of item = "" ->
    item_step item w (blank_outcome item (toISOString (now w))) w
| step_success b w' :
    city_of item <> "" ->
    makeTravelInfoRequest (city_of item) w = (Ok b, w') ->
    item_step item w
      (success_outcome (city_of item) b (toISOString (now w'))) w'
| step_failure e w' :
    city_of item <> "" ->
    makeTravelInfoRequest (city_of item) w = (Throw e, w') ->
    item_step item w
      (failure_outcome (city_of item) e (toISOString (now w'))) w'.

(** The turns of the loop over a list of items, in order. *)
Inductive batch_steps : list value -> World -> list Outcome -> World -> Prop :=
| batch_nil w : batch_steps [] w [] w
| batch_cons item rest w o w1 os w' :
    item_step item w o w1 ->
    batch_steps rest w1 os w' ->
    batch_steps (item :: rest) w (o :: os) w'.

(** The message of the error thrown for a response that is not 2xx. *)
Definition http_error_message (res : Response) (finalUrl : Url) : string :=
  let bodyTxt := match text res with Ok t => t | Throw _ => "" end in
  ("HTTP " ++ show_Z (status res) ++ " em " ++ href finalUrl
     ++ (if String.eqb bodyTxt "" then ""
         else " - " ++ substring 0 200 bodyTxt))%string.

(** The world after one request. *)
Definition after_fetch (req : Request) (w : World) : World :=
  mkWorld (now w + elapsed (network (sent w) req)) (lastGeocodeAt w)
    (sent w ++ [req]) (draws w).

(** Counting the branches that failed. *)
Definition failed {A} (r : Settled A) : nat :=
  match r with
  | Fulfilled _ => 0
  | Rejected _ => 1
  end.

(** The reading of the aggregator under which, when exactly one of the four
    branches fails, the field of that branch is [null] and each of the other
    three is filled from the result of its own branch; for [exchange], from
    the rate the exchange branch fulfilled with. *)
Definition one_failure_spares_the_others : Prop :=
  forall city w g w1 wr cr hr fr w5 b,
    geocodeCity city w = (Ok (Some g), w1) ->
    enrichment_run g w1 wr cr hr fr w5 ->
    makeTravelInfoRequest city w = (Ok b, w5) ->
    (failed wr + failed cr + failed hr + failed fr = 1)%nat ->
    (match wr with
     | Fulfilled v => weather b = Some v
     | Rejected _ => weather b = None
     end)
    /\ (match cr with
        | Fulfilled v => countryInfo b = v
        | Rejected _ => countryInfo b = None
        end)
    /\ (match hr with
        | Fulfilled v => holidays b = v
        | Rejected _ => holidays b = None
        end)
    /\ (match fr with
        | Fulfilled v =>
            truthy v = true -> exists x, exchange b = Some x /\ rate x = v
        | Rejected _ => exchange b = None
        end).

End Vocabulary.

(** ** The vocabulary of the further properties *)

(** Running [m] adds at most [n] requests to the requests issued. *)
Definition sends_at_most {A} (n : nat) (m : M A) : Prop :=
  forall w,
    exists new,
      sent (snd (m w)) = (sent w ++ new)%list /\ (List.length new <= n)%nat.

Definition url_forecast : string := "https://api.open-meteo.com/v1/forecast".

(** A place as the second and the third provider give it. *)
Definition fallback_place (city : string) (g : Geo) : Prop :=
  timezone g = VNull
  /\ (exists lat lon, latitude g = VNum lat /\ longitude g = VNum lon)
  /\ (country_code g = VNull
      \/ exists cc, country_code g = VStr cc /\ cc <> ""%string)
  /\ (country g = VNull \/ truthy (country g) = true)
  /\ exists n, name g = VStr n /\ (city <> ""%string -> n <> ""%string).

(** The three kinds of outcome of an item. *)
Definition outcome_kind (o : Outcome) : Prop :=
  (processed o = true /\ o_status o = "success"%string /\ error o = None
   /\ exists b, data o = Some b)
  \/ (processed o = false /\ o_status o = "error"%string /\ data o = None
      /\ error o = Some "Destino vazio/ inválido"%string)
  \/ (processed o = false /\ o_status o = "error"%string /\ data o = None
      /\ exists city,
          originalItem o = VStr city
          /\ error o = Some (err_message (not_geocoded city))).

(** The values that [String(v)] converts without running code of the value:
    everything but an object or an array. *)
Definition primitive (v : value) : bool :=
  match v with
  | VArr _ | VObj _ => false
  | _ => true
  end.

(** The name on a line of the report of [/health/apis]. *)
Definition check_name (c : ApiCheck) : string :=
  match c with
  | Answered api _ => api
  | Unanswered api _ => api
  end.

(** The two probes of [externalHealthcheck]. *)
Definition probe_google : Request :=
  bare_request "https://www.google.com/generate_204" [] 5000.

Definition probe_cloudflare : Request :=
  bare_request "https://cloudflare.com/cdn-cgi/trace" [] 5000.

(** An answer with the status [expected]. *)
Definition answers_with (expected : Z) (rep : Reply) : bool :=
  match answer rep with
  | Ok res => status res =? expected
  | Throw _ => false
  end.

Section Vocabulary2.

Context {host : Host}.

(** The request that every attempt of [fetchJSON url o] puts on the wire. *)
Definition fetch_request (url : string) (o : Options) : Request :=
  request o (withQuery url (params o)).

(** The step of the loop of [withQuery]. *)
Definition set_param (q : list (string * string)) (kv : string * value)
  : list (string * string) :=
  if nullish (snd kv) then q else set_key (fst kv) (String_ (snd kv)) q.

(** The loop of [withQuery] over the entries of [params], from the search
    parameters [q0] that the URL had when it was parsed. *)
Definition set_params (q0 : list (string * string))
  (ps : list (string * value)) : list (string * string) :=
  fold_left set_param ps q0.

(** The entries of a query string under one name. *)
Definition entries_named (k : string) (q : list (string * string))
  : list (string * string) :=
  filter (fun e => String.eqb (fst e) k) q.

(** The retry loop of [fetchJSON] and the [throw] that follows it, for the
    URL [finalUrl] that [withQuery] has built. *)
Definition retry_loop (o : Options) (finalUrl : Url) : M value :=
  attempts o finalUrl (Z.to_nat (retries o + 1)) 0 None.

(** The options of the reverse lookup. *)
Definition reverse_options (lat lon : float) : Options :=
  options [("lat", VNum lat); ("lon", VNum lon);
           ("format", VStr "jsonv2"); ("addressdetails", VNum 1);
           ("accept-language", VStr "pt"); ("email", env_email)]
    12000 [("Accept-Language", "pt")].

(** The coordinates that the second and the third provider read off a
    record. *)
Definition record_lat (r : value) : float :=
  parseFloat (String_ (member r "lat")).

Definition record_lon (r : value) : float :=
  parseFloat (String_ (member r "lon")).

(** The URL of the country lookup. *)
Definition country_url (iso2 : value) : string :=
  ("https://restcountries.com/v3.1/alpha/"
     ++ encodeURIComponent (String_ iso2))%string.

(** The value an answer of the network gives to [fetchJSON], when it is a
    2xx response whose body can be read and parsed. *)
Definition parsed (rep : Reply) : option value :=
  match answer rep with
  | Ok res =>
      if res_ok res then
        match text res with
        | Ok txt =>
            match JSON_parse txt with
            | Ok v => Some v
            | Throw _ => None
            end
        | Throw _ => None
        end
      else None
  | Throw _ => None
  end.

End Vocabulary2.

(** * A test double

    A host with ASCII string operations, a clock stopped on 2 November 2026,
    a parser that knows the documents of the scenarios by their names, and
    networks that answer by the URL of the request. *)

Module Stub.

Open Scope string_scope.

Definition is_space (c : ascii) : bool :=
  let n := nat_of_ascii c in
  (Nat.leb 9 n && Nat.leb n 13) || Nat.eqb n 32.

Fixpoint trim_start (s : string) : string :=
  match s with
  | String c s' => if is_space c then trim_start s' else s
  | EmptyString => EmptyString
  end.

Fixpoint trim_end (s : string) : string :=
  match s with
  | String c s' =>
      let t := trim_end s' in
      if is_space c && String.eqb t "" then "" else String c t
  | EmptyString => EmptyString
  end.

Definition upper (c : ascii) : ascii :=
  let n := nat_of_ascii c in
  if (Nat.leb 97 n && Nat.leb n 122)%bool then ascii_of_nat (n - 32) else c.

Fixpoint map_string (f : ascii -> ascii) (s : string) : string :=
  match s with
  | String c s' => String (f c) (map_string f s')
  | EmptyString => EmptyString
  end.

(** The printing of the values that the scenarios put in a URL. *)
Definition print (v : value) : string :=
  match v with
  | VUndef => "undefined"
  | VNull => "null"
  | VBool b => if b then "true" else "false"
  | VNum x =>
      if PrimFloat.eqb x 1 then "1"
      else if PrimFloat.eqb x 7 then "7"
      else if PrimFloat.eqb x 38.75 then "38.75"
      else if PrimFloat.eqb x (-9.125) then "-9.125"
      else "0"
  | VStr s => s
  | VArr _ => ""
  | VObj _ => "[object Object]"
  end.

Definition read_float (s : string) : float :=
  if String.eqb s "38.75" then 38.75
  else if String.eqb s "-9.125" then (-9.125)
  else PrimFloat.nan.

(** The documents. *)
Definition doc_place : value :=
  VObj [("results",
         VArr [VObj [("name", VStr "Lisboa"); ("country", VStr "Portugal");
                     ("country_code", VStr "PT"); ("latitude", VNum 38.75);
                     ("longitude", VNum (-9.125));
                     ("timezone", VStr "Europe/Lisbon")]])].

Definition doc_no_place : value := VObj [("generationtime_ms", VNum 1)].

Definition doc_nominatim : value :=
  VArr [VObj [("lat", VStr "38.75"); ("lon", VStr "-9.125");
              ("display_name", VStr "Lisboa, Portugal");
              ("address",
               VObj [("country", VStr "Portugal");
                     ("country_code", VStr "pt")])]].

Definition doc_weather : value :=
  VObj [("current_weather", VObj [("temperature", VNum 7)]);
        ("daily", VObj [("time", VArr [VStr "2026-11-02"])])].

Definition doc_country : value :=
  VArr [VObj [("name", VObj [("official", VStr "Portuguese Republic")]);
              ("region", VStr "Europe");
              ("subregion", VStr "Southern Europe");
              ("capital", VArr [VStr "Lisbon"]);
              ("currencies",
               VObj [("EUR", VObj [("name", VStr "Euro");
                                   ("symbol", VStr "E")])]);
              ("languages", VObj [("por", VStr "Portuguese")]);
              ("idd", VObj [("root", VStr "+3");
                            ("suffixes", VArr [VStr "51"])])]].

Definition holiday (date name : string) : value :=
  VObj [("date", VStr date); ("localName", VStr name)].

Definition doc_holidays : value :=
  VArr [holiday "2026-01-01" "Ano Novo";
        holiday "2026-04-03" "Sexta-feira Santa";
        holiday "2026-04-05" "Domingo de Pascoa";
        holiday "2026-04-25" "Dia da Liberdade";
        holiday "2026-05-01" "Dia do Trabalhador";
        holiday "2026-06-04" "Corpo de Deus";
        holiday "2026-06-10" "Dia de Portugal";
        holiday "2026-08-15" "Assuncao de Nossa Senhora";
        holiday "2026-10-05" "Implantacao da Republica";
        holiday "2026-11-01" "Dia de Todos-os-Santos";
        holiday "2026-12-01" "Restauracao da Independencia";
        holiday "2026-12-08" "Imaculada Conceicao";
        holiday "2026-12-25" "Natal"].

Definition doc_rates : value := VObj [("rates", VObj [("BRL", VNum 6.5)])].

Definition documents : list (string * value) :=
  [("place.json", doc_place); ("no-place.json", doc_no_place);
   ("nominatim.json", doc_nominatim); ("none.json", VArr []);
   ("weather.json", doc_weather); ("country.json", doc_country);
   ("holidays.json", doc_holidays); ("rates.json", doc_rates)].

Fixpoint lookup (k : string) (l : list (string * value)) : option value :=
  match l with
  | [] => None
  | (k', v) :: l' => if String.eqb k k' then Some v else lookup k l'
  end.

Definition parse (s : string) : Res value :=
  match lookup s documents with
  | Some v => Ok v
  | None => Throw (MkErr "SyntaxError" "Unexpected token" no_diag None)
  end.

Definition stub (net : list Request -> Request -> Reply) : Host :=
  {| ToString := print;
     ToNumber := read_float;
     parseFloat := read_float;
     toUpperCase := map_string upper;
     trim := fun s => trim_end (trim_start s);
     encodeURIComponent := fun s => s;
     JSON_parse := parse;
     URL_href :=
       fun b q =>
         b ++ "?" ++ join "&" (map (fun kv => fst kv ++ "=" ++ snd kv) q);
     toISOString := fun _ => "2026-11-02T10:00:00.000Z";
     getFullYear := fun _ => 2026;
     NOMINATIM_EMAIL := None;
     network := net;
     random250 := fun _ => 125 |}.

(** The answers. *)
Definition served (doc : string) : Reply :=
  mkReply 40 (Ok (mkResponse 200 (Ok doc))).

Definition refused (code : Z) (msg : string) : Reply :=
  mkReply 40 (Ok (mkResponse code (Ok msg))).

Definition to_countries (q : Request) : bool :=
  String.prefix "https://restcountries.com/" (target (r_url q)).

Definition named (city : string) (q : Request) : bool :=
  match search (r_url q) with
  | Some (("name", n) :: _) => String.eqb n city
  | _ => false
  end.

(** Every provider answers; Open-Meteo knows Lisboa only. *)
Definition net_up (hist : list Request) (q : Request) : Reply :=
  let u := target (r_url q) in
  if String.eqb u url_open_meteo then
    if named "Lisboa" q then served "place.json" else served "no-place.json"
  else if String.eqb u url_nominatim_search then served "none.json"
  else if String.eqb u url_maps_co then served "none.json"
  else if String.eqb u "https://api.open-meteo.com/v1/forecast" then
    served "weather.json"
  else if to_countries q then served "country.json"
  else if String.prefix "https://date.nager.at/" u then served "holidays.json"
  else if String.eqb u url_exchange then served "rates.json"
  else refused 404 "Not Found".

Definition to_holidays (q : Request) : bool :=
  String.prefix "https://date.nager.at/" (target (r_url q)).

(** The country provider refuses every request but one that comes right
    after a request to the holidays provider.  The first requests of the
    four branches leave in the order weather, country, holidays, country,
    whether the branches then go on one after the other or side by side:
    the lookup of the exchange branch follows the holidays request and is
    answered, and none of the five attempts of the country branch follows
    one, the first coming after the weather request and the others after a
    wait, when the holidays branch has long made its only request. *)
Definition net_country_down (hist : list Request) (q : Request) : Reply :=
  if to_countries q
     && negb (match rev hist with
              | q' :: _ => to_holidays q'
              | [] => false
              end)
  then refused 503 "Service Unavailable"
  else net_up hist q.

(** Open-Meteo finds nothing and Nominatim knows the place. *)
Definition net_second (hist : list Request) (q : Request) : Reply :=
  let u := target (r_url q) in
  if String.eqb u url_open_meteo then served "no-place.json"
  else if String.eqb u url_nominatim_search then served "nominatim.json"
  else net_up hist q.

(** Nothing is found anywhere. *)
Definition net_404 (hist : list Request) (q : Request) : Reply :=
  refused 404 "Not Found".

Definition w0 : World := mkWorld 1793613600000 0 [] 0.

(** The hosts of the scenarios. *)
Definition up : Host := stub net_up.
Definition country_down : Host := stub net_country_down.
Definition second : Host := stub net_second.
Definition nowhere : Host := stub net_404.

(** What the runs of the scenarios give. *)
Definition lisboa : Geo :=
  mkGeo (VStr "Lisboa") (VStr "Portugal") (VStr "PT") (VNum 38.75)
    (VNum (-9.125)) (VStr "Europe/Lisbon").

Definition place_fetched : World :=
  Eval vm_compute in
    snd (@fetchJSON up url_open_meteo (open_meteo_options "Lisboa") w0).

Definition lisboa_run : Res Bundle * World :=
  Eval vm_compute in @makeTravelInfoRequest up "Lisboa" w0.

Definition lisboa_run_country_down : Res Bundle * World :=
  Eval vm_compute in @makeTravelInfoRequest country_down "Lisboa" w0.

Definition second_a : Res (option Geo) * World :=
  Eval vm_compute in @searchOpenMeteo second "Lisboa" w0.

Definition second_b : Res (option Geo) * World :=
  Eval vm_compute in
    @searchNominatim second "Lisboa" (snd (waitGeocodeSlot (snd second_a))).

Definition nowhere_a : Res value * World :=
  Eval vm_compute in
    @fetchJSON nowhere url_open_meteo (open_meteo_options "Atlantis") w0.

Definition nowhere_b : Res value * World :=
  Eval vm_compute in
    @fetchJSON nowhere url_nominatim_search
      (@nominatim_options nowhere "Atlantis")
      (snd (waitGeocodeSlot (snd nowhere_a))).

Definition nowhere_c : Res value * World :=
  Eval vm_compute in
    @fetchJSON nowhere url_maps_co (maps_co_options "Atlantis")
      (snd (waitGeocodeSlot (snd nowhere_b))).

Definition atlantis_a : World :=
  Eval vm_compute in
    snd (@fetchJSON up url_open_meteo (open_meteo_options "Atlantis") w0).

Definition atlantis_b : World :=
  Eval vm_compute in
    snd (@fetchJSON up url_nominatim_search (@nominatim_options up "Atlantis")
           (snd (waitGeocodeSlot atlantis_a))).

Definition atlantis_c : World :=
  Eval vm_compute in
    snd (@fetchJSON up url_maps_co (maps_co_options "Atlantis")
           (snd (waitGeocodeSlot atlantis_b))).

Definition holidays_fetched : World :=
  Eval vm_compute in
    snd (@fetchJSON up (@holidays_url up 2026 (VStr "PT"))
           (options_timeout 12000) w0).

(** The scenarios of the further properties. *)

(** Every provider answers after two refusals of the server. *)
Definition net_warming_up (hist : list Request) (q : Request) : Reply :=
  if Nat.ltb (List.length hist) 2 then refused 503 "Service Unavailable"
  else net_up hist q.

(** Open-Meteo knows the place but not its country. *)
Definition doc_place_no_code : value :=
  VObj [("results",
         VArr [VObj [("name", VStr "Null Island"); ("latitude", VNum 0);
                     ("longitude", VNum 0)]])].

Definition net_no_code (hist : list Request) (q : Request) : Reply :=
  if String.eqb (target (r_url q)) url_open_meteo then
    mkReply 40 (Ok (mkResponse 200 (Ok "place-no-code.json")))
  else net_up hist q.

(** The probes of the reachability check are answered. *)
Definition net_online (hist : list Request) (q : Request) : Reply :=
  if String.eqb (target (r_url q)) "https://www.google.com/generate_204"
  then mkReply 40 (Ok (mkResponse 204 (Ok "")))
  else net_up hist q.

Definition parse2 (s : string) : Res value :=
  if String.eqb s "place-no-code.json" then Ok doc_place_no_code else parse s.

Definition stub2 (net : list Request -> Request -> Reply) : Host :=
  {| ToString := print;
     ToNumber := read_float;
     parseFloat := read_float;
     toUpperCase := map_string upper;
     trim := fun s => trim_end (trim_start s);
     encodeURIComponent := fun s => s;
     JSON_parse := parse2;
     URL_href :=
       fun b q =>
         b ++ "?" ++ join "&" (map (fun kv => fst kv ++ "=" ++ snd kv) q);
     toISOString := fun _ => "2026-11-02T10:00:00.000Z";
     getFullYear := fun _ => 2026;
     NOMINATIM_EMAIL := None;
     network := net;
     random250 := fun _ => 125 |}.

Definition warming_up : Host := stub net_warming_up.
Definition no_code : Host := stub2 net_no_code.
Definition online : Host := stub net_online.

(** A record of Nominatim with a country code, and one without. *)
Definition record_with_code : value :=
  VObj [("lat", VStr "38.75"); ("lon", VStr "-9.125");
        ("display_name", VStr "Lisboa, Portugal");
        ("address",
         VObj [("country", VStr "Portugal"); ("country_code", VStr "pt")])].

Definition record_without_code : value :=
  VObj [("lat", VStr "38.75"); ("lon", VStr "-9.125");
        ("display_name", VStr "Lisboa, Portugal");
        ("address", VObj [("country", VStr "Portugal")])].

Definition null_island : Geo :=
  mkGeo (VStr "Null Island") VUndef VUndef (VNum 0) (VNum 0) VUndef.

Definition no_code_fetched : World :=
  Eval vm_compute in snd (@geocodeCity no_code "Null Island" w0).

Definition country_fetched : World :=
  Eval vm_compute in
    snd (@fetchJSON up (@country_url up (VStr "PT")) (options_timeout 12000)
           w0).

End Stub.

(** * Properties *)

(** ** What a computation puts on the wire *)

Ltac nothing_sent :=
  exists []; split; [simpl; now rewrite app_nil_r | constructor].

Lemma only_sent_refl P w : only_sent P w w.
Proof. nothing_sent. Qed.

Lemma only_sent_trans P w1 w2 w3 :
  only_sent P w1 w2 -> only_sent P w2 w3 -> only_sent P w1 w3.
Proof.
  intros [n1 [E1 F1]] [n2 [E2 F2]]. exists (n1 ++ n2)%list. split.
  - now rewrite E2, E1, app_assoc.
  - apply Forall_app; split; assumption.
Qed.

Lemma only_sent_weaken (P Q : Request -> Prop) w w' :
  (forall q, P q -> Q q) -> only_sent P w w' -> only_sent Q w w'.
Proof.
  intros PQ [n [E F]]. exists n. split; [assumption|].
  eapply Forall_impl; eauto.
Qed.

Lemma sends_weaken {A} (P Q : Request -> Prop) (m : M A) :
  (forall q, P q -> Q q) -> sends P m -> sends Q m.
Proof. intros PQ H w. eapply only_sent_weaken; eauto. Qed.

Lemma sends_ret {A} P (a : A) : sends P (ret a).
Proof. intro w. apply only_sent_refl. Qed.

Lemma sends_throw {A} P e : sends P (@throw A e).
Proof. intro w. apply only_sent_refl. Qed.

Lemma sends_lift {A} P (r : Res A) : sends P (lift r).
Proof. intro w. apply only_sent_refl. Qed.

Lemma sends_bind {A B} P (m : M A) (k : A -> M B) :
  sends P m -> (forall a, sends P (k a)) -> sends P (bind m k).
Proof.
  intros Hm Hk w. unfold bind. specialize (Hm w).
  destruct (m w) as [[a|e] w1]; simpl in *.
  - eapply only_sent_trans; [exact Hm | apply Hk].
  - exact Hm.
Qed.

Lemma sends_try_catch {A} P (m : M A) (h : Err -> M A) :
  sends P m -> (forall e, sends P (h e)) -> sends P (try_catch m h).
Proof.
  intros Hm Hh w. unfold try_catch. specialize (Hm w).
  destruct (m w) as [[a|e] w1]; simpl in *.
  - exact Hm.
  - eapply only_sent_trans; [exact Hm | apply Hh].
Qed.

Lemma sends_settle {A} P (m : M A) : sends P m -> sends P (settle m).
Proof.
  intros Hm w. unfold settle. specialize (Hm w).
  destruct (m w) as [[a|e] w1]; exact Hm.
Qed.

Lemma keeps_gate_ret {A} (a : A) : keeps_gate (ret a).
Proof. intro w. reflexivity. Qed.

Lemma keeps_gate_throw {A} e : keeps_gate (@throw A e).
Proof. intro w. reflexivity. Qed.

Lemma keeps_gate_lift {A} (r : Res A) : keeps_gate (lift r).
Proof. intro w. reflexivity. Qed.

Lemma keeps_gate_bind {A B} (m : M A) (k : A -> M B) :
  keeps_gate m -> (forall a, keeps_gate (k a)) -> keeps_gate (bind m k).
Proof.
  intros Hm Hk w. unfold bind. specialize (Hm w).
  destruct (m w) as [[a|e] w1]; simpl in *.
  - now rewrite Hk.
  - exact Hm.
Qed.

Lemma keeps_gate_try_catch {A} (m : M A) (h : Err -> M A) :
  keeps_gate m -> (forall e, keeps_gate (h e)) -> keeps_gate (try_catch m h).
Proof.
  intros Hm Hh w. unfold try_catch. specialize (Hm w).
  destruct (m w) as [[a|e] w1]; simpl in *.
  - exact Hm.
  - now rewrite Hh.
Qed.

Lemma sends_sleep P ms : sends P (sleep ms).
Proof. intro w. nothing_sent. Qed.

Lemma keeps_gate_sleep ms : keeps_gate (sleep ms).
Proof. intro w. reflexivity. Qed.

Lemma sends_Date_now P : sends P Date_now.
Proof. intro w. apply only_sent_refl. Qed.

Lemma keeps_gate_Date_now : keeps_gate Date_now.
Proof. intro w. reflexivity. Qed.

Section Frames.

Context {host : Host}.

Lemma sends_jitter P : sends P jitter.
Proof. intro w. nothing_sent. Qed.

Lemma keeps_gate_jitter : keeps_gate jitter.
Proof. intro w. reflexivity. Qed.

Lemma sends_fetch (P : Request -> Prop) req : P req -> sends P (fetch req).
Proof.
  intros H w. exists [req]. split; [reflexivity | now constructor].
Qed.

Lemma keeps_gate_fetch req : keeps_gate (fetch req).
Proof. intro w. reflexivity. Qed.

Lemma sends_timestamp P : sends P timestamp.
Proof. intro w. apply only_sent_refl. Qed.

Lemma sends_waitGeocodeSlot P : sends P waitGeocodeSlot.
Proof.
  intro w. unfold waitGeocodeSlot, bind, Date_now, get_lastGeocodeAt. simpl.
  destruct (_ =? 0); nothing_sent.
Qed.

End Frames.

Create HintDb frames.
#[export] Hint Resolve sends_ret sends_throw sends_lift sends_sleep
  sends_Date_now sends_jitter sends_timestamp sends_waitGeocodeSlot
  : frames.
#[export] Hint Resolve keeps_gate_ret keeps_gate_throw keeps_gate_lift
  keeps_gate_sleep keeps_gate_Date_now keeps_gate_jitter keeps_gate_fetch
  : frames.

(** Splitting a frame goal along the shape of the computation. *)
Ltac frame_step :=
  match goal with
  | |- sends _ (bind _ _) => apply sends_bind; [| intros]
  | |- sends _ (try_catch _ _) => apply sends_try_catch; [| intros]
  | |- sends _ (settle _) => apply sends_settle
  | |- keeps_gate (bind _ _) => apply keeps_gate_bind; [| intros]
  | |- keeps_gate (try_catch _ _) => apply keeps_gate_try_catch; [| intros]
  | |- sends _ (if ?b then _ else _) => destruct b
  | |- keeps_gate (if ?b then _ else _) => destruct b
  | |- sends _ (match ?x with _ => _ end) => destruct x
  | |- keeps_gate (match ?x with _ => _ end) => destruct x
  | |- _ => solve [eauto with frames]
  end.

Ltac frame := repeat frame_step.

Section FetchFrames.

Context {host : Host}.

Lemma sends_attempt_once o u attempt :
  sends (eq (request o u)) (attempt_once o u attempt).
Proof.
  unfold attempt_once. frame. now apply sends_fetch.
Qed.

Lemma keeps_gate_attempt_once o u attempt :
  keeps_gate (attempt_once o u attempt).
Proof. unfold attempt_once. frame. Qed.

Lemma sends_attempts o u n : forall attempt lastErr,
  sends (eq (request o u)) (attempts o u n attempt lastErr).
Proof.
  induction n as [|n IH]; intros attempt lastErr; simpl.
  - frame.
  - apply sends_bind; [apply sends_attempt_once |].
    intros [v|e]; frame; apply IH.
Qed.

Lemma keeps_gate_attempts o u n : forall attempt lastErr,
  keeps_gate (attempts o u n attempt lastErr).
Proof.
  induction n as [|n IH]; intros attempt lastErr; simpl.
  - frame.
  - apply keeps_gate_bind; [apply keeps_gate_attempt_once |].
    intros [v|e]; frame; apply IH.
Qed.

Lemma target_withQuery url ps : target (withQuery url ps) = url.
Proof. destruct ps as [[|p ps]|]; reflexivity. Qed.

(** Every request of a call of [fetchJSON] is the same request, to the URL
    the call was given. *)
Lemma sends_fetchJSON url o :
  sends (fun q => target (r_url q) = url) (fetchJSON url o).
Proof.
  unfold fetchJSON.
  eapply sends_weaken; [| apply sends_attempts].
  intros q <-. simpl. apply target_withQuery.
Qed.

Lemma keeps_gate_fetchJSON url o : keeps_gate (fetchJSON url o).
Proof. unfold fetchJSON. apply keeps_gate_attempts. Qed.

End FetchFrames.

(** ** Computations that return *)

Lemma returns_ret {A} (a : A) : returns (ret a).
Proof. intro w. now exists a, w. Qed.

Lemma returns_bind {A B} (m : M A) (k : A -> M B) :
  returns m -> (forall a, returns (k a)) -> returns (bind m k).
Proof.
  intros Hm Hk w. unfold bind. destruct (Hm w) as (a & w1 & ->). apply Hk.
Qed.

Lemma returns_settle {A} (m : M A) : returns (settle m).
Proof.
  intro w. unfold settle. destruct (m w) as [[a|e] w1]; eauto.
Qed.

Lemma returns_Date_now : returns Date_now.
Proof. intro w. unfold Date_now. eauto. Qed.

Section Geocoding.

Context {host : Host}.

Lemma returns_timestamp : returns timestamp.
Proof. intro w. unfold timestamp, bind, Date_now, ret. eauto. Qed.

Lemma returns_waitGeocodeSlot : returns waitGeocodeSlot.
Proof.
  intro w. unfold waitGeocodeSlot, bind, Date_now, get_lastGeocodeAt. simpl.
  destruct (_ =? 0); simpl; do 2 eexists; reflexivity.
Qed.

Lemma returns_swallow m : returns (swallow m).
Proof.
  intro w. unfold swallow, try_catch, ret.
  destruct (m w) as [[a|e] w1]; eauto.
Qed.

Lemma swallow_nothing m w r w1 :
  m w = (r, w1) -> finds_nothing r -> swallow m w = (Ok None, w1).
Proof.
  intros E H. unfold swallow, try_catch. rewrite E.
  destruct r as [[g|]|e]; simpl in H; [contradiction | reflexivity ..].
Qed.

Lemma swallow_found m w g w1 :
  m w = (Ok (Some g), w1) -> swallow m w = (Ok (Some g), w1).
Proof. intros E. unfold swallow, try_catch. now rewrite E. Qed.

Lemma waitGeocodeSlot_run w : waitGeocodeSlot w = (Ok tt, snd (waitGeocodeSlot w)).
Proof.
  destruct (returns_waitGeocodeSlot w) as ([] & w1 & E). now rewrite E.
Qed.

Lemma geocodeCity_returns city : returns (geocodeCity city).
Proof.
  unfold geocodeCity.
  apply returns_bind; [apply returns_swallow |].
  intros [g|]; [apply returns_ret |].
  apply returns_bind; [apply returns_waitGeocodeSlot | intros _].
  apply returns_bind; [apply returns_swallow |].
  intros [g|]; [apply returns_ret |].
  apply returns_bind; [apply returns_waitGeocodeSlot | intros _].
  apply returns_bind; [apply returns_swallow |].
  intros [g|]; apply returns_ret.
Qed.

(** A provider whose request fails has found nothing, and so has one whose
    answer holds no result. *)
Lemma searchOpenMeteo_fetch_throws city w e w1 :
  fetchJSON url_open_meteo (open_meteo_options city) w = (Throw e, w1) ->
  searchOpenMeteo city w = (Throw e, w1).
Proof. intros E. unfold searchOpenMeteo, bind. now rewrite E. Qed.

Lemma searchOpenMeteo_empty city w data w1 :
  fetchJSON url_open_meteo (open_meteo_options city) w = (Ok data, w1) ->
  has_length (opt_member data "results") = false ->
  searchOpenMeteo city w = (Ok None, w1).
Proof. intros E H. unfold searchOpenMeteo, bind. now rewrite E, H. Qed.

Lemma fromNominatim_empty city data :
  (forall r rest, data <> VArr (r :: rest)) ->
  fromNominatim city data = ret None.
Proof.
  intros H. destruct data as [| | | | |[|r rest]|]; try reflexivity.
  now destruct (H r rest).
Qed.

Lemma searchNominatim_fetch_throws city w e w1 :
  fetchJSON url_nominatim_search (nominatim_options city) w = (Throw e, w1) ->
  searchNominatim city w = (Throw e, w1).
Proof. intros E. unfold searchNominatim, bind. now rewrite E. Qed.

Lemma searchNominatim_empty city w data w1 :
  fetchJSON url_nominatim_search (nominatim_options city) w = (Ok data, w1) ->
  (forall r rest, data <> VArr (r :: rest)) ->
  searchNominatim city w = (Ok None, w1).
Proof.
  intros E H. unfold searchNominatim, bind. rewrite E.
  now rewrite fromNominatim_empty.
Qed.

Lemma searchMapsCo_fetch_throws city w e w1 :
  fetchJSON url_maps_co (maps_co_options city) w = (Throw e, w1) ->
  searchMapsCo city w = (Throw e, w1).
Proof. intros E. unfold searchMapsCo, bind. now rewrite E. Qed.

Lemma searchMapsCo_empty city w data w1 :
  fetchJSON url_maps_co (maps_co_options city) w = (Ok data, w1) ->
  (forall r rest, data <> VArr (r :: rest)) ->
  searchMapsCo city w = (Ok None, w1).
Proof.
  intros E H. unfold searchMapsCo, bind. rewrite E.
  now rewrite fromNominatim_empty.
Qed.

(** The requests of each block. *)
Lemma sends_searchOpenMeteo city :
  sends (fun q => target (r_url q) = url_open_meteo) (searchOpenMeteo city).
Proof.
  unfold searchOpenMeteo. apply sends_bind; [apply sends_fetchJSON |].
  intros data. frame.
Qed.

Lemma sends_reverseCountryCode P lat lon cc :
  (forall q, target (r_url q) = url_nominatim_reverse -> P q) ->
  sends P (reverseCountryCode lat lon cc).
Proof.
  intros HP. unfold reverseCountryCode. frame.
  eapply sends_weaken; [| apply sends_fetchJSON]. exact HP.
Qed.

Lemma sends_fromNominatim P city data :
  (forall q, target (r_url q) = url_nominatim_reverse -> P q) ->
  sends P (fromNominatim city data).
Proof.
  intros HP. unfold fromNominatim.
  destruct data as [| | | | |[|r rest]|]; frame.
  now apply sends_reverseCountryCode.
Qed.

Lemma sends_searchNominatim city :
  sends to_nominatim (searchNominatim city).
Proof.
  unfold searchNominatim. apply sends_bind.
  - eapply sends_weaken; [| apply sends_fetchJSON]. intros q H. now left.
  - intros data. apply sends_fromNominatim. intros q H. now right.
Qed.

End Geocoding.

Section GeocodeResolver.

Context {host : Host}.

Lemma url_open_meteo_not_maps_co : url_open_meteo <> url_maps_co.
Proof. apply String.eqb_neq. reflexivity. Qed.

Lemma to_nominatim_not_maps_co q :
  to_nominatim q -> target (r_url q) <> url_maps_co.
Proof.
  intros [H|H]; rewrite H; apply String.eqb_neq; reflexivity.
Qed.

Lemma searchOpenMeteo_found city w data r rest w1 :
  fetchJSON url_open_meteo (open_meteo_options city) w = (Ok data, w1) ->
  member data "results" = VArr (r :: rest) ->
  nullish r = false ->
  searchOpenMeteo city w = (Ok (Some (geo_of_result r)), w1).
Proof.
  intros E Hres Hr. unfold searchOpenMeteo, bind. rewrite E.
  assert (Hd : opt_member data "results" = VArr (r :: rest)).
  { unfold opt_member. destruct data; simpl in *; try discriminate; assumption. }
  rewrite Hd, Hres. simpl. unfold lift, get. rewrite Hr. reflexivity.
Qed.


(** A provider whose answer holds no usable result has found nothing, and
    has done nothing after its request. *)
Lemma searchOpenMeteo_no_result city w a wa :
  fetchJSON url_open_meteo (open_meteo_options city) w = (a, wa) ->
  no_result a ->
  exists r, searchOpenMeteo city w = (r, wa) /\ finds_nothing r.
Proof.
  intros E H. destruct a as [data|e].
  - destruct (has_length (opt_member data "results")) eqn:L.
    + destruct H as [H|H]; [congruence |].
      exists (Throw (TypeError_read (at0 (member data "results")) "name")).
      split; [| exact I].
      unfold searchOpenMeteo, bind. rewrite E, L.
      unfold lift, get. now rewrite H.
    + exists (Ok None). split; [| exact I].
      now apply searchOpenMeteo_empty with (data := data).
  - exists (Throw e). split; [| exact I].
    now apply searchOpenMeteo_fetch_throws.
Qed.

Lemma fromNominatim_no_record city data w :
  no_record (Ok data) ->
  exists r, fromNominatim city data w = (r, w) /\ finds_nothing r.
Proof.
  intros H. destruct data as [| | | | |[|r rest]|];
    try (exists (Ok None); split; [reflexivity | exact I]).
  simpl in H.
  exists (Throw (TypeError_read r "lat")). split; [| exact I].
  unfold fromNominatim, bind, lift, get. now rewrite H.
Qed.

Lemma searchNominatim_no_record city w b wb :
  fetchJSON url_nominatim_search (nominatim_options city) w = (b, wb) ->
  no_record b ->
  exists r, searchNominatim city w = (r, wb) /\ finds_nothing r.
Proof.
  intros E H. destruct b as [data|e].
  - destruct (fromNominatim_no_record city data wb H) as (r & F & N).
    exists r. split; [| exact N].
    unfold searchNominatim, bind. now rewrite E.
  - exists (Throw e). split; [| exact I].
    now apply searchNominatim_fetch_throws.
Qed.

Lemma searchMapsCo_no_record city w c wc :
  fetchJSON url_maps_co (maps_co_options city) w = (c, wc) ->
  no_record c ->
  exists r, searchMapsCo city w = (r, wc) /\ finds_nothing r.
Proof.
  intros E H. destruct c as [data|e].
  - destruct (fromNominatim_no_record city data wc H) as (r & F & N).
    exists r. split; [| exact N].
    unfold searchMapsCo, bind. now rewrite E.
  - exists (Throw e). split; [| exact I].
    now apply searchMapsCo_fetch_throws.
Qed.

(** C5.  [geocodeCity] always returns and never throws; and when the answer
    of each of the three providers to the search, asked in the world in
    which the chain reaches it, is a failure of the request or holds no
    usable result (no result set or an empty one for Open-Meteo, no array or
    an empty one for Nominatim and geocode.maps.co, a first entry that is
    [null]), the chain goes through all three, each after an acquisition of
    the rate gate but the first, and the result is [null], in the world
    that the third search left. *)
Theorem geocodeCity_null_when_all_fail (city : string) (w : World) :
  (exists r w', geocodeCity city w = (Ok r, w'))
  /\ (forall a wa b wb c wc,
         fetchJSON url_open_meteo (open_meteo_options city) w = (a, wa) ->
         fetchJSON url_nominatim_search (nominatim_options city)
           (snd (waitGeocodeSlot wa)) = (b, wb) ->
         fetchJSON url_maps_co (maps_co_options city)
           (snd (waitGeocodeSlot wb)) = (c, wc) ->
         no_result a -> no_record b -> no_record c ->
         geocodeCity city w = (Ok None, wc)).
Proof.
  split; [apply geocodeCity_returns |].
  intros a wa b wb c wc EA EB EC HA HB HC.
  destruct (searchOpenMeteo_no_result _ _ _ _ EA HA) as (ra & SA & NA).
  destruct (searchNominatim_no_record _ _ _ _ EB HB) as (rb & SB & NB).
  destruct (searchMapsCo_no_record _ _ _ _ EC HC) as (rc & SC & NC).
  unfold geocodeCity, bind.
  rewrite (swallow_nothing _ _ _ _ SA NA), waitGeocodeSlot_run.
  rewrite (swallow_nothing _ _ _ _ SB NB), waitGeocodeSlot_run.
  now rewrite (swallow_nothing _ _ _ _ SC NC).
Qed.

End GeocodeResolver.

(** ** The enrichment fan-out *)

Section Enrichment.

Context {host : Host}.

Lemma enrichment_runs g w1 :
  exists wr cr hr fr w5, enrichment_run g w1 wr cr hr fr w5.
Proof.
  destruct (returns_settle
              (getWeather (latitude g) (longitude g) (timezone g)) w1)
    as (wr & w2 & E1).
  destruct (returns_settle (getCountryInfo (country_code g)) w2)
    as (cr & w3 & E2).
  destruct (returns_settle (getHolidays (country_code g)) w3)
    as (hr & w4 & E3).
  destruct (returns_settle (exchangeBranch (country_code g)) w4)
    as (fr & w5 & E4).
  exists wr, cr, hr, fr, w5, w2, w3, w4. auto.
Qed.

Lemma makeTravelInfoRequest_found city w g w1 wr cr hr fr w5 :
  geocodeCity city w = (Ok (Some g), w1) ->
  enrichment_run g w1 wr cr hr fr w5 ->
  makeTravelInfoRequest city w = (Ok (assemble city g wr cr hr fr), w5).
Proof.
  intros EG (w2 & w3 & w4 & E1 & E2 & E3 & E4).
  unfold makeTravelInfoRequest, bind. rewrite EG.
  now rewrite E1, E2, E3, E4.
Qed.

Lemma makeTravelInfoRequest_null city w w1 :
  geocodeCity city w = (Ok None, w1) ->
  makeTravelInfoRequest city w = (Throw (not_geocoded city), w1).
Proof.
  intros EG. unfold makeTravelInfoRequest, bind. now rewrite EG.
Qed.

Lemma makeTravelInfoRequest_inv city w b w' :
  makeTravelInfoRequest city w = (Ok b, w') ->
  exists g w1 wr cr hr fr,
    geocodeCity city w = (Ok (Some g), w1)
    /\ enrichment_run g w1 wr cr hr fr w'
    /\ b = assemble city g wr cr hr fr.
Proof.
  intros E.
  destruct (geocodeCity_returns city w) as ([g|] & w1 & EG).
  - destruct (enrichment_runs g w1) as (wr & cr & hr & fr & w5 & R).
    rewrite (makeTravelInfoRequest_found _ _ _ _ _ _ _ _ _ EG R) in E.
    injection E as <- <-. now exists g, w1, wr, cr, hr, fr.
  - rewrite (makeTravelInfoRequest_null _ _ _ EG) in E. discriminate.
Qed.

(** The only error [makeTravelInfoRequest] throws. *)
Lemma makeTravelInfoRequest_throws city w e w' :
  makeTravelInfoRequest city w = (Throw e, w') ->
  e = not_geocoded city /\ geocodeCity city w = (Ok None, w').
Proof.
  intros E.
  destruct (geocodeCity_returns city w) as ([g|] & w1 & EG).
  - destruct (enrichment_runs g w1) as (wr & cr & hr & fr & w5 & R).
    rewrite (makeTravelInfoRequest_found _ _ _ _ _ _ _ _ _ EG R) in E. discriminate.
  - rewrite (makeTravelInfoRequest_null _ _ _ EG) in E.
    injection E as <- <-. now split.
Qed.

(** When the [exchange] field is set, and to what. *)
Lemma assemble_exchange city g wr cr hr fr x :
  exchange (assemble city g wr cr hr fr) = Some x
  <-> exists fxRate i c rest,
      fr = Fulfilled fxRate /\ truthy fxRate = true
      /\ cr = Fulfilled (Some i) /\ currencies i = c :: rest
      /\ code c <> ""
      /\ x = mkExchange (code c) "BRL" fxRate.
Proof.
  unfold assemble. simpl. split.
  - destruct fr as [fxRate|e]; [| simpl; discriminate].
    destruct (truthy fxRate) eqn:T; [| simpl; discriminate].
    destruct cr as [[i|]|e]; simpl; try discriminate.
    destruct (currencies i) as [|c rest] eqn:C; simpl; try discriminate.
    destruct (String.eqb (code c) "") eqn:N; simpl; try discriminate.
    intros [= <-]. exists fxRate, i, c, rest.
    repeat split; try assumption. now apply String.eqb_neq.
  - intros (fxRate & i & c & rest & -> & T & -> & C & N & ->).
    rewrite T. simpl. rewrite C. simpl.
    apply String.eqb_neq in N. now rewrite N.
Qed.

End Enrichment.

Section ExchangeField.

Context {host : Host}.

(** A truthy rate out of [getExchangeRate] is the rate the provider gave. *)
Lemma getExchangeRate_rate base quote w fxRate w' :
  getExchangeRate base quote w = (Ok fxRate, w') ->
  truthy fxRate = true ->
  truthy base = true
  /\ exists data,
      fetchJSON url_exchange (exchange_options base quote) w = (Ok data, w')
      /\ opt_member (opt_member data "rates") quote = fxRate.
Proof.
  unfold getExchangeRate, bind. intros E T.
  destruct (truthy base); simpl in E.
  - split; [reflexivity |].
    destruct (fetchJSON url_exchange (exchange_options base quote) w)
      as [[data|e] w1]; [| discriminate].
    unfold ret in E. injection E as E <-. exists data. split; [reflexivity |].
    unfold or_else in E.
    destruct (truthy (opt_member (opt_member data "rates") quote)) eqn:T';
      [assumption |].
    subst fxRate. discriminate.
  - unfold ret in E. injection E as <- <-. discriminate.
Qed.

(** A rate that is falsy, such as 0, comes out as [null]. *)
Lemma getExchangeRate_falsy base quote w data w' :
  truthy base = true ->
  fetchJSON url_exchange (exchange_options base quote) w = (Ok data, w') ->
  truthy (opt_member (opt_member data "rates") quote) = false ->
  getExchangeRate base quote w = (Ok VNull, w').
Proof.
  intros B E T. unfold getExchangeRate, bind. rewrite B. simpl. rewrite E.
  unfold or_else. now rewrite T.
Qed.

(** A truthy rate out of the fourth branch went through the branch's own
    country lookup, which gave a currency code, and through the rate lookup
    for that code. *)
Lemma exchangeBranch_rate cc w fxRate w' :
  exchangeBranch cc w = (Ok fxRate, w') ->
  truthy fxRate = true ->
  exists info wi c,
    getCountryInfo cc w = (Ok info, wi)
    /\ first_currency_code info = VStr c /\ c <> ""
    /\ getExchangeRate (VStr c) "BRL" wi = (Ok fxRate, w').
Proof.
  unfold exchangeBranch, bind. intros E T.
  destruct (getCountryInfo cc w) as [[info|e] wi]; [| discriminate].
  unfold or_else in E.
  destruct (truthy (first_currency_code info)) eqn:TC.
  - rewrite TC in E.
    destruct (first_currency_code info) as [| | | | c | |] eqn:FC;
      try (destruct info as [[? ? ? ? [|? ?] ? ?]|]; discriminate).
    exists info, wi, c. repeat split; try assumption.
    simpl in TC. intros ->. discriminate.
  - simpl in E. unfold ret in E. injection E as <- <-. discriminate.
Qed.

End ExchangeField.

Section Aggregator.

Context {host : Host}.

(** C6, as the code has it.  Once the place is resolved the aggregator
    returns a bundle and throws nothing: the four branches are run to their
    end one after the other, whatever the others did; [weather],
    [countryInfo] and [holidays] each hold the value of their own branch, or
    [null] when that branch failed; and [exchange] holds the rate of the
    exchange branch under the first currency code of the country branch when
    the first gave a truthy rate and the second such a code, and [null] in
    every other case. *)
Theorem enrichment_isolates_branches (city : string) (w : World)
  (g : Geo) (w1 : World) :
  geocodeCity city w = (Ok (Some g), w1) ->
  exists wr cr hr fr w5 b,
    enrichment_run g w1 wr cr hr fr w5
    /\ makeTravelInfoRequest city w = (Ok b, w5)
    /\ weather b = match wr with
                   | Fulfilled v => Some v
                   | Rejected _ => None
                   end
    /\ countryInfo b = value_or_null cr
    /\ holidays b = value_or_null hr
    /\ (forall x,
           exchange b = Some x
           <-> exists fxRate i c rest,
               fr = Fulfilled fxRate /\ truthy fxRate = true
               /\ cr = Fulfilled (Some i) /\ currencies i = c :: rest
               /\ code c <> ""
               /\ x = mkExchange (code c) "BRL" fxRate).
Proof.
  intros EG.
  destruct (enrichment_runs g w1) as (wr & cr & hr & fr & w5 & R).
  exists wr, cr, hr, fr, w5, (assemble city g wr cr hr fr).
  split; [exact R |].
  split; [exact (makeTravelInfoRequest_found _ _ _ _ _ _ _ _ _ EG R) |].
  repeat split; try reflexivity; apply assemble_exchange.
Qed.

(** C8.  In a bundle that [makeTravelInfoRequest] returned, a non-null
    [exchange] is a whole record: its base is the non-empty code of the first
    currency of [countryInfo], its quote is BRL and its rate is the truthy
    value the exchange branch fulfilled with; that branch then found a
    currency code in its own country lookup and got this very rate from the
    rate provider.  When the exchange branch failed or gave no rate, and when
    [countryInfo] offers no currency code, [exchange] is [null]. *)
Theorem exchange_needs_rate_and_currency (city : string) (w : World)
  (b : Bundle) (w' : World) :
  makeTravelInfoRequest city w = (Ok b, w') ->
  exists g w1 fr w4,
    geocodeCity city w = (Ok (Some g), w1)
    /\ settle (exchangeBranch (country_code g)) w4 = (Ok fr, w')
    /\ (forall x,
           exchange b = Some x ->
           (exists i c rest,
               countryInfo b = Some i /\ currencies i = c :: rest
               /\ base x = code c /\ code c <> "")
           /\ quote x = "BRL"
           /\ truthy (rate x) = true
           /\ fr = Fulfilled (rate x)
           /\ exists info wi c' data,
               getCountryInfo (country_code g) w4 = (Ok info, wi)
               /\ first_currency_code info = VStr c' /\ c' <> ""
               /\ fetchJSON url_exchange (exchange_options (VStr c') "BRL") wi
                  = (Ok data, w')
               /\ opt_member (opt_member data "rates") "BRL" = rate x)
    /\ (forall e, fr = Rejected e -> exchange b = None)
    /\ (forall v, fr = Fulfilled v -> truthy v = false -> exchange b = None)
    /\ (truthy (first_currency_code (countryInfo b)) = false ->
        exchange b = None).
Proof.
  intros E.
  destruct (makeTravelInfoRequest_inv _ _ _ _ E)
    as (g & w1 & wr & cr & hr & fr & EG & R & ->).
  destruct R as (w2 & w3 & w4 & E1 & E2 & E3 & E4).
  exists g, w1, fr, w4. split; [exact EG |]. split; [exact E4 |].
  split; [| split; [| split]].
  - intros x Hx. apply assemble_exchange in Hx.
    destruct Hx as (fxRate & i & c & rest & -> & T & -> & C & N & ->).
    simpl. split; [now exists i, c, rest |].
    repeat split; try assumption.
    unfold settle in E4.
    destruct (exchangeBranch (country_code g) w4) as [[v|e] w5] eqn:EB;
      [| discriminate].
    injection E4 as -> ->.
    destruct (exchangeBranch_rate _ _ _ _ EB T)
      as (info & wi & c' & EI & FC & N' & ER).
    destruct (getExchangeRate_rate _ _ _ _ _ ER T) as (_ & data & EF & ED).
    now exists info, wi, c', data.
  - intros e ->. reflexivity.
  - intros v -> T. unfold assemble. simpl. now rewrite T.
  - intros T. unfold assemble. simpl. fold (value_or_null cr) in *.
    simpl in T. unfold value_or_null in *. rewrite T.
    now rewrite andb_false_r.
Qed.

(** C10.  The [exchange] field hangs on the country branch, the second
    element of [Promise.allSettled], and not only on the exchange branch: a
    non-null [exchange] means that the country branch fulfilled with a
    country whose first currency gives the base code; when the country
    branch failed [exchange] is [null], whatever the exchange branch
    fulfilled with; and a rate that the provider gives as 0 leaves the rate
    lookup as [null], and with it [exchange]. *)
Theorem exchange_depends_on_country_branch (city : string) (w : World)
  (b : Bundle) (w' : World) :
  makeTravelInfoRequest city w = (Ok b, w') ->
  exists g w1 wr cr hr fr,
    geocodeCity city w = (Ok (Some g), w1)
    /\ enrichment_run g w1 wr cr hr fr w'
    /\ (forall x,
           exchange b = Some x ->
           exists i c rest,
             cr = Fulfilled (Some i) /\ currencies i = c :: rest
             /\ base x = code c)
    /\ (forall e, cr = Rejected e -> exchange b = None)
    /\ (fr = Fulfilled VNull -> exchange b = None)
    /\ (forall cur wi data wj,
           truthy cur = true ->
           fetchJSON url_exchange (exchange_options cur "BRL") wi
           = (Ok data, wj) ->
           opt_member (opt_member data "rates") "BRL" = VNum 0 ->
           getExchangeRate cur "BRL" wi = (Ok VNull, wj)).
Proof.
  intros E.
  destruct (makeTravelInfoRequest_inv _ _ _ _ E)
    as (g & w1 & wr & cr & hr & fr & EG & R & ->).
  exists g, w1, wr, cr, hr, fr.
  split; [exact EG |]. split; [exact R |].
  split; [| split; [| split]].
  - intros x Hx. apply assemble_exchange in Hx.
    destruct Hx as (fxRate & i & c & rest & -> & T & -> & C & N & ->).
    now exists i, c, rest.
  - intros e ->. unfold assemble. simpl. now rewrite andb_false_r.
  - intros ->. reflexivity.
  - intros cur wi data wj T EF Z0.
    apply (getExchangeRate_falsy _ _ _ _ _ T EF). now rewrite Z0.
Qed.

End Aggregator.

(** ** Holidays *)

Lemma slice_first {A} (n : nat) (l : list A) :
  slice 0 (Some (Z.of_nat n)) l = firstn n l.
Proof.
  unfold slice. simpl.
  replace (Z.of_nat n <? 0) with false by (symmetry; apply Z.ltb_ge; lia).
  rewrite (Z.min_l 0) by lia. simpl.
  destruct (Nat.le_ge_cases (List.length l) n) as [H|H].
  - rewrite !firstn_all2; try reflexivity; lia.
  - f_equal. lia.
Qed.

Lemma slice_last {A} (n : nat) (l : list A) :
  (0 < n)%nat ->
  slice (- Z.of_nat n) None l = skipn (List.length l - n) l.
Proof.
  intros Hn. unfold slice.
  replace (- Z.of_nat n <? 0) with true by (symmetry; apply Z.ltb_lt; lia).
  replace (Z.to_nat (Z.max (Z.of_nat (List.length l) + - Z.of_nat n) 0))
    with (List.length l - n)%nat by lia.
  apply firstn_all2. rewrite length_skipn. lia.
Qed.

Lemma filter_by_date_records p l :
  Forall (fun h => nullish h = false) l ->
  filter_by_date p l = Ok (filter (fun h => p (member h "date")) l).
Proof.
  induction 1 as [|h l Hh _ IH]; simpl; [reflexivity |].
  unfold get. rewrite Hh, IH. reflexivity.
Qed.

Section HolidaysLookup.

Context {host : Host}.

(** C7.  Without a country code [getHolidays] returns [null] and leaves the
    world as it was: no request is made.  With one, and with the provider
    answering the request for the current year with a list [l] of holiday
    records, the result holds as [upcoming] the first five entries of [l]
    whose date is not before today and as [past] the last five entries whose
    date is before today, both in the order of [l]; dates compare as
    JavaScript compares a value with the string of today's date, which for a
    date that is a string is the order of strings. *)
Theorem holidays_partition (iso2 : value) (w : World) :
  (truthy iso2 = false -> getHolidays iso2 w = (Ok None, w))
  /\ (forall l w1,
         truthy iso2 = true ->
         fetchJSON (holidays_url (getFullYear (now w)) iso2)
           (options_timeout 12000) w = (Ok (VArr l), w1) ->
         Forall (fun h => nullish h = false) l ->
         let today := substring 0 10 (toISOString (now w1)) in
         let later := filter (fun h => ge_date today (member h "date")) l in
         let earlier := filter (fun h => lt_date today (member h "date")) l in
         getHolidays iso2 w
         = (Ok (Some (mkHolidays (getFullYear (now w))
                        (firstn 5 later)
                        (skipn (List.length earlier - 5) earlier))), w1)
         /\ (List.length (firstn 5 later) <= 5)%nat
         /\ (List.length (skipn (List.length earlier - 5) earlier) <= 5)%nat
         /\ (forall s,
                ge_date today (VStr s) = negb (String.ltb s today)
                /\ lt_date today (VStr s) = String.ltb s today)).
Proof.
  split.
  - intros T. unfold getHolidays. now rewrite T.
  - intros l w1 T E Hl today later earlier.
    split; [| split; [| split]].
    + unfold getHolidays, bind. rewrite T. simpl. rewrite E. simpl.
      unfold lift. rewrite !filter_by_date_records by assumption.
      unfold ret. fold today. fold later. fold earlier.
      pose proof (slice_first 5 later) as S1.
      pose proof (slice_last 5 earlier ltac:(lia)) as S2.
      change (Z.of_nat 5) with 5 in S1.
      change (- Z.of_nat 5) with (-5) in S2.
      now rewrite S1, S2.
    + apply firstn_le_length.
    + rewrite length_skipn. lia.
    + intros s. split; reflexivity.
Qed.

End HolidaysLookup.

(** ** The batch runner *)

Open Scope list_scope.

Lemma explain_Error m : m <> "" -> explainFetchError (Error m) = m.
Proof.
  intros H. apply String.eqb_neq in H. unfold explainFetchError, Error.
  rewrite H. reflexivity.
Qed.

Section BatchRunner.

Context {host : Host}.

Lemma processLoop_blank item rest acc w :
  city_of item = "" ->
  processLoop (item :: rest) acc w
  = processLoop rest (acc ++ [blank_outcome item (toISOString (now w))]) w.
Proof.
  intros H. simpl. fold (city_of item). rewrite H. reflexivity.
Qed.

Lemma processLoop_cons item w :
  exists o w1,
    item_step item w o w1
    /\ forall rest acc,
        processLoop (item :: rest) acc w = processLoop rest (acc ++ [o]) w1.
Proof.
  destruct (String.eqb (city_of item) "") eqn:B.
  - apply String.eqb_eq in B. do 2 eexists. split.
    + now apply step_blank.
    + intros rest acc. now apply processLoop_blank.
  - pose proof B as N. apply String.eqb_neq in N.
    destruct (makeTravelInfoRequest (city_of item) w) as [[b|e] w'] eqn:E.
    + do 2 eexists. split.
      * eapply step_success; eassumption.
      * intros rest acc. simpl. fold (city_of item). rewrite B.
        unfold bind at 1. unfold try_catch, bind. rewrite E. reflexivity.
    + do 2 eexists. split.
      * eapply step_failure; eassumption.
      * intros rest acc. simpl. fold (city_of item). rewrite B.
        unfold bind at 1. unfold try_catch, bind. rewrite E. reflexivity.
Qed.

Lemma processLoop_steps items : forall w,
  exists rs w',
    batch_steps items w rs w'
    /\ forall acc, processLoop items acc w = (Ok (acc ++ rs), w').
Proof.
  induction items as [|item rest IH]; intros w.
  - exists [], w. split; [constructor |].
    intros acc. simpl. now rewrite app_nil_r.
  - destruct (processLoop_cons item w) as (o & w1 & S & C).
    destruct (IH w1) as (rs & w' & B & L).
    exists (o :: rs), w'. split; [econstructor; eassumption |].
    intros acc. rewrite C, L. now rewrite <- app_assoc.
Qed.

Lemma processLoop_app a : forall b w ra wa,
  (forall acc, processLoop a acc w = (Ok (acc ++ ra), wa)) ->
  forall acc, processLoop (a ++ b) acc w = processLoop b (acc ++ ra) wa.
Proof.
  induction a as [|x a IH]; intros b w ra wa H acc.
  - specialize (H []). simpl in H. injection H as <- <-.
    simpl. now rewrite app_nil_r.
  - destruct (processLoop_cons x w) as (o & w1 & _ & C).
    destruct (processLoop_steps a w1) as (rs & w' & _ & L).
    pose proof (H []) as H0. rewrite C, L in H0. simpl in H0.
    injection H0 as <- <-.
    simpl app. rewrite C. rewrite (IH b w1 rs w' L).
    now rewrite <- app_assoc.
Qed.

Lemma batch_steps_length items w rs w' :
  batch_steps items w rs w' -> List.length rs = List.length items.
Proof. induction 1; simpl; congruence. Qed.

Lemma item_step_original item w o w1 :
  item_step item w o w1 ->
  originalItem o
  = if String.eqb (city_of item) "" then item else VStr (city_of item).
Proof.
  intros [B | b w' N _ | e w' N _]; simpl.
  - now rewrite B.
  - apply String.eqb_neq in N. now rewrite N.
  - apply String.eqb_neq in N. now rewrite N.
Qed.

Lemma batch_steps_original items w rs w' :
  batch_steps items w rs w' ->
  Forall2
    (fun item o =>
       originalItem o
       = if String.eqb (city_of item) "" then item else VStr (city_of item))
    items rs.
Proof.
  induction 1; constructor; [eapply item_step_original; eassumption | assumption].
Qed.

(** C1.  Whatever the items and the world, [processItems] returns, and the
    list it returns has one outcome for each item, in the order of the items:
    the outcomes are those of the turns of the loop taken one item after the
    other, as many as there are items, the i-th outcome carrying the i-th
    item, as it came when it is blank and trimmed otherwise. *)
Theorem one_outcome_per_input (items : list value) (w : World) :
  exists results w',
    processItems items w = (Ok results, w')
    /\ batch_steps items w results w'
    /\ List.length results = List.length items
    /\ Forall2
         (fun item o =>
            originalItem o
            = if String.eqb (city_of item) "" then item
              else VStr (city_of item))
         items results.
Proof.
  destruct (processLoop_steps items w) as (rs & w' & B & L).
  exists rs, w'. split; [exact (L []) |]. split; [exact B |]. split.
  - eapply batch_steps_length; eassumption.
  - eapply batch_steps_original; eassumption.
Qed.

(** C2.  An item whose trimmed form is empty gets the failure outcome with
    the error of an empty destination, and the world is the same after its
    turn as before: the batch goes on from the very world in which the items
    before it ended, so that no request was issued, the rate gate was not
    taken and nothing of the geocoding or of the enrichment ran. *)
Theorem blank_item_fails_without_request (pre : list value) (item : value)
  (post : list value) (w : World) :
  city_of item = "" ->
  exists r1 w1 r2 w2,
    processItems pre w = (Ok r1, w1)
    /\ processItems post w1 = (Ok r2, w2)
    /\ processItems (pre ++ item :: post) w
       = (Ok (r1 ++ blank_outcome item (toISOString (now w1)) :: r2), w2)
    /\ processItems [item] w1
       = (Ok [blank_outcome item (toISOString (now w1))], w1)
    /\ error (blank_outcome item (toISOString (now w1)))
       = Some "Destino vazio/ inválido".
Proof.
  intros B.
  destruct (processLoop_steps pre w) as (r1 & w1 & _ & L1).
  destruct (processLoop_steps post w1) as (r2 & w2 & _ & L2).
  exists r1, w1, r2, w2. unfold processItems.
  split; [exact (L1 []) |]. split; [exact (L2 []) |].
  split; [| split; [| reflexivity]].
  - rewrite (processLoop_app pre (item :: post) w r1 w1 L1).
    rewrite (processLoop_blank item post _ w1 B). rewrite L2.
    simpl. now rewrite <- app_assoc.
  - now rewrite (processLoop_blank item [] _ w1 B).
Qed.

(** C9.  When the geocoding of a destination returns [null],
    [makeTravelInfoRequest] throws in the world the geocoding left, before
    any branch of the enrichment is started, and the item gets a failure
    outcome with that error.  And a bundle that [makeTravelInfoRequest]
    returned comes after a geocoding that returned a place, which its
    destination describes. *)
Theorem bundle_only_after_geo (city : string) (w : World) :
  (forall w1,
      geocodeCity city w = (Ok None, w1) ->
      makeTravelInfoRequest city w = (Throw (not_geocoded city), w1)
      /\ forall item,
          city_of item = city -> city <> "" ->
          processItems [item] w
          = (Ok [mkOutcome (VStr city) false "error"
                   (Some (err_message (not_geocoded city)))
                   (toISOString (now w1)) None], w1))
  /\ (forall b w',
         makeTravelInfoRequest city w = (Ok b, w') ->
         exists g w1,
           geocodeCity city w = (Ok (Some g), w1)
           /\ destination b
              = mkDestination city (name g) (country g) (country_code g)
                  (latitude g, longitude g) (timezone g)).
Proof.
  split.
  - intros w1 EG.
    pose proof (makeTravelInfoRequest_null _ _ _ EG) as EM.
    split; [exact EM |].
    intros item <- N. unfold processItems.
    assert (X : explainFetchError (not_geocoded (city_of item))
                = err_message (not_geocoded (city_of item))).
    { unfold not_geocoded. rewrite explain_Error; [reflexivity |].
      simpl. discriminate. }
    cbn [processLoop]. fold (city_of item).
    apply String.eqb_neq in N. rewrite N.
    unfold bind at 1. unfold try_catch, bind. rewrite EM, X. reflexivity.
  - intros b w' E.
    destruct (makeTravelInfoRequest_inv _ _ _ _ E)
      as (g & w1 & wr & cr & hr & fr & EG & _ & ->).
    now exists g, w1.
Qed.

End BatchRunner.

(** ** The retries of [fetchJSON] on a status that is not retryable *)

Section NonRetryableStatus.

Context {host : Host}.

(** The error thrown inside the [try] is caught by the [catch] of the same
    attempt, which throws it again only on the last attempt. *)
Lemma attempt_once_non_retryable o u attempt w res :
  answer (network (sent w) (request o u)) = Ok res ->
  res_ok res = false ->
  retryable_status (status res) = false ->
  attempt_once o u attempt w
  = (if attempt =? retries o
     then Throw (Error (http_error_message res u))
     else Ok (Again (Error (http_error_message res u))),
     after_fetch (request o u) w).
Proof.
  intros A K R. unfold attempt_once, try_catch, bind, fetch. rewrite A, K, R.
  cbn [negb orb]. unfold throw at 1. cbv iota beta.
  rewrite explain_Error by (simpl; discriminate).
  unfold after_fetch, http_error_message.
  destruct (attempt =? retries o); destruct (transient_message _);
    reflexivity.
Qed.

(** With a network that answers every request of the call with the same
    status, outside 2xx and outside the retryable ones, the loop of [n]
    turns that ends on the last attempt makes [n] requests before it
    throws. *)
Lemma bind_ok {A B} (m : M A) (k : A -> M B) w a w1 :
  m w = (Ok a, w1) -> bind m k w = k a w1.
Proof. intros E. unfold bind. now rewrite E. Qed.

Lemma bind_throw {A B} (m : M A) (k : A -> M B) w e w1 :
  m w = (Throw e, w1) -> bind m k w = (Throw e, w1).
Proof. intros E. unfold bind. now rewrite E. Qed.

Lemma attempts_S o u n attempt lastErr :
  attempts o u (S n) attempt lastErr
  = (s <- attempt_once o u attempt ;;
     match s with
     | Done v => ret v
     | Again e =>
         j <- jitter ;;
         sleep (baseDelayMs o * 2 ^ attempt + j) ;;;
         attempts o u n (attempt + 1) (Some e)
     end).
Proof. reflexivity. Qed.

Lemma attempts_non_retryable o u res n : forall attempt lastErr w,
  (forall hist, answer (network hist (request o u)) = Ok res) ->
  res_ok res = false ->
  retryable_status (status res) = false ->
  retries o = attempt + Z.of_nat n ->
  exists w',
    attempts o u (S n) attempt lastErr w
    = (Throw (Error (http_error_message res u)), w')
    /\ sent w' = sent w ++ repeat (request o u) (S n).
Proof.
  induction n as [|n IH]; intros attempt lastErr w A K R E;
    pose proof (attempt_once_non_retryable o u attempt w res (A _) K R) as H1;
    rewrite attempts_S.
  - replace (attempt =? retries o) with true in H1
      by (symmetry; apply Z.eqb_eq; lia).
    rewrite (bind_throw _ _ _ _ _ H1).
    eexists. split; reflexivity.
  - replace (attempt =? retries o) with false in H1
      by (symmetry; apply Z.eqb_neq; lia).
    rewrite (bind_ok _ _ _ _ _ H1).
    erewrite bind_ok by reflexivity.
    erewrite bind_ok by reflexivity.
    match goal with
    | |- exists w', attempts _ _ _ _ _ ?w1 = _ /\ _ =>
        destruct (IH (attempt + 1) (Some (Error (http_error_message res u)))
                    w1 A K R ltac:(lia)) as (w' & E' & S')
    end.
    exists w'. split; [exact E' |].
    rewrite S'. cbn [sent after_fetch repeat].
    now rewrite <- app_assoc.
Qed.

Lemma fetchJSON_non_retryable url o res w :
  (forall hist,
      answer (network hist (request o (withQuery url (params o)))) = Ok res) ->
  res_ok res = false ->
  retryable_status (status res) = false ->
  0 <= retries o ->
  exists w',
    fetchJSON url o w
    = (Throw (Error (http_error_message res (withQuery url (params o)))), w')
    /\ sent w'
       = sent w ++ repeat (request o (withQuery url (params o)))
                     (Z.to_nat (retries o + 1)).
Proof.
  intros A K R H. unfold fetchJSON.
  replace (Z.to_nat (retries o + 1)) with (S (Z.to_nat (retries o))) by lia.
  apply attempts_non_retryable; try assumption. lia.
Qed.

End NonRetryableStatus.

(** * The scenarios of the test double *)

Example withQuery_drops_null :
  @withQuery Stub.up "https://example.org/a"
    (Some [("q", VStr "Porto"); ("email", VUndef); ("limit", VNum 1);
           ("q", VStr "Faro")])
  = mkUrl "https://example.org/a" (Some [("q", "Faro"); ("limit", "1")]).
Proof. reflexivity. Qed.

Example explainFetchError_cause :
  explainFetchError
    (MkErr "TypeError" "fetch failed" no_diag
       (Some (MkErr "Error" "connect ECONNREFUSED"
                (mkDiag "ECONNREFUSED" "-111" "127.0.0.1" "443" "connect" "")
                None)))
  = "fetch failed | code=ECONNREFUSED | errno=-111 | addr=127.0.0.1 | port=443 | syscall=connect"%string.
Proof. reflexivity. Qed.

Example slice_examples :
  slice 0 (Some 5) [1; 2; 3; 4; 5; 6; 7] = [1; 2; 3; 4; 5]
  /\ slice (-5) None [1; 2; 3; 4; 5; 6; 7] = [3; 4; 5; 6; 7]
  /\ slice (-5) None [1; 2; 3] = [1; 2; 3].
Proof. repeat split. Qed.

Example short_name_examples :
  short_name (VStr "Lisboa, Portugal") "lisboa" = Ok (VStr "Lisboa")
  /\ short_name (VStr ", Portugal") "lisboa" = Ok (VStr "lisboa")
  /\ short_name VUndef "lisboa" = Ok (VStr "lisboa").
Proof. repeat split. Qed.

(** The batch of three of the end-to-end scenario: a place that is found, a
    blank item and a place that no provider knows. *)
Example batch_of_three :
  exists o1 o2 o3 w',
    @processItems Stub.up
      [VStr "Lisboa"; VStr ""; VStr "Nonexistent9999City"] Stub.w0
    = (Ok [o1; o2; o3], w')
    /\ o_status o1 = "success"%string
    /\ error o2 = Some "Destino vazio/ inválido"%string
    /\ error o3 = Some (err_message (not_geocoded "Nonexistent9999City"))
    /\ List.length (sent w') = 9%nat.
Proof.
  do 4 eexists. split; [vm_compute; reflexivity |]. repeat split.
Qed.

(** C3, on the code.  Against a provider that answers 404 to every request,
    [fetchJSON] with its default of four retries does not stop at the first
    answer: the error thrown for the status is caught by the [catch] of the
    same attempt, and the call goes five times on the wire before it fails,
    with the status and the body of the answer in its message. *)
Theorem not_found_is_retried :
  exists w',
    @fetchJSON Stub.nowhere "https://restcountries.com/v3.1/alpha/ZZ"
      (options_timeout 12000) Stub.w0
    = (Throw
         (Error
            "HTTP 404 em https://restcountries.com/v3.1/alpha/ZZ - Not Found"),
       w')
    /\ List.length (sent w') = 5%nat
    /\ retries (options_timeout 12000) = 4.
Proof.
  destruct (@fetchJSON_non_retryable Stub.nowhere
              "https://restcountries.com/v3.1/alpha/ZZ"
              (options_timeout 12000) (mkResponse 404 (Ok "Not Found"%string))
              Stub.w0)
    as (w' & E & S); try reflexivity.
  - discriminate.
  - exists w'. split; [exact E |]. split; [| reflexivity].
    rewrite S. reflexivity.
Qed.

Lemma blank_item_scenario :
  @city_of Stub.up (VStr "  ") = ""%string
  /\ exists r1 w1 r2 w2,
      @processItems Stub.up [VStr "Lisboa"] Stub.w0 = (Ok r1, w1)
      /\ @processItems Stub.up [VStr "Nonexistent9999City"] w1 = (Ok r2, w2)
      /\ @processItems Stub.up
           [VStr "Lisboa"; VStr "  "; VStr "Nonexistent9999City"] Stub.w0
         = (Ok (r1 ++ blank_outcome (VStr "  ")
                        (@toISOString Stub.up (now w1)) :: r2), w2)
      /\ @processItems Stub.up [VStr "  "] w1
         = (Ok [blank_outcome (VStr "  ") (@toISOString Stub.up (now w1))], w1)
      /\ error (blank_outcome (VStr "  ") (@toISOString Stub.up (now w1)))
         = Some "Destino vazio/ inválido"%string.
Proof.
  split; [reflexivity |].
  apply (@blank_item_fails_without_request Stub.up
           [VStr "Lisboa"] (VStr "  ") [VStr "Nonexistent9999City"] Stub.w0).
  reflexivity.
Defined.


Lemma nowhere_scenario :
  (@fetchJSON Stub.up url_open_meteo (open_meteo_options "Atlantis") Stub.w0
   = (Ok Stub.doc_no_place, Stub.atlantis_a)
   /\ @fetchJSON Stub.up url_nominatim_search
        (@nominatim_options Stub.up "Atlantis")
        (snd (waitGeocodeSlot Stub.atlantis_a))
      = (Ok (VArr []), Stub.atlantis_b)
   /\ @fetchJSON Stub.up url_maps_co (maps_co_options "Atlantis")
        (snd (waitGeocodeSlot Stub.atlantis_b))
      = (Ok (VArr []), Stub.atlantis_c)
   /\ @geocodeCity Stub.up "Atlantis" Stub.w0 = (Ok None, Stub.atlantis_c))
  /\ (@fetchJSON Stub.nowhere url_open_meteo (open_meteo_options "Atlantis")
        Stub.w0
      = Stub.nowhere_a
      /\ @fetchJSON Stub.nowhere url_nominatim_search
           (@nominatim_options Stub.nowhere "Atlantis")
           (snd (waitGeocodeSlot (snd Stub.nowhere_a)))
         = Stub.nowhere_b
      /\ @fetchJSON Stub.nowhere url_maps_co (maps_co_options "Atlantis")
           (snd (waitGeocodeSlot (snd Stub.nowhere_b)))
         = Stub.nowhere_c
      /\ (exists ea eb ec,
             fst Stub.nowhere_a = Throw ea /\ fst Stub.nowhere_b = Throw eb
             /\ fst Stub.nowhere_c = Throw ec)
      /\ @geocodeCity Stub.nowhere "Atlantis" Stub.w0
         = (Ok None, snd Stub.nowhere_c)).
Proof.
  assert (A : @fetchJSON Stub.up url_open_meteo
                (open_meteo_options "Atlantis") Stub.w0
              = (Ok Stub.doc_no_place, Stub.atlantis_a))
    by (vm_compute; reflexivity).
  assert (B : @fetchJSON Stub.up url_nominatim_search
                (@nominatim_options Stub.up "Atlantis")
                (snd (waitGeocodeSlot Stub.atlantis_a))
              = (Ok (VArr []), Stub.atlantis_b))
    by (vm_compute; reflexivity).
  assert (C : @fetchJSON Stub.up url_maps_co (maps_co_options "Atlantis")
                (snd (waitGeocodeSlot Stub.atlantis_b))
              = (Ok (VArr []), Stub.atlantis_c))
    by (vm_compute; reflexivity).
  assert (A' : @fetchJSON Stub.nowhere url_open_meteo
                 (open_meteo_options "Atlantis") Stub.w0
               = (fst Stub.nowhere_a, snd Stub.nowhere_a))
    by (vm_compute; reflexivity).
  assert (B' : @fetchJSON Stub.nowhere url_nominatim_search
                 (@nominatim_options Stub.nowhere "Atlantis")
                 (snd (waitGeocodeSlot (snd Stub.nowhere_a)))
               = (fst Stub.nowhere_b, snd Stub.nowhere_b))
    by (vm_compute; reflexivity).
  assert (C' : @fetchJSON Stub.nowhere url_maps_co
                 (maps_co_options "Atlantis")
                 (snd (waitGeocodeSlot (snd Stub.nowhere_b)))
               = (fst Stub.nowhere_c, snd Stub.nowhere_c))
    by (vm_compute; reflexivity).
  split.
  - split; [exact A |]. split; [exact B |]. split; [exact C |].
    exact (proj2 (@geocodeCity_null_when_all_fail Stub.up "Atlantis" Stub.w0)
             _ _ _ _ _ _ A B C (or_introl eq_refl) I I).
  - split; [exact A' |]. split; [exact B' |]. split; [exact C' |].
    split; [do 3 eexists; repeat split; reflexivity |].
    exact (proj2 (@geocodeCity_null_when_all_fail Stub.nowhere "Atlantis"
                    Stub.w0)
             _ _ _ _ _ _ A' B' C' I I I).
Defined.

Lemma enrichment_scenario :
  @geocodeCity Stub.country_down "Lisboa" Stub.w0
  = (Ok (Some Stub.lisboa), Stub.place_fetched)
  /\ exists wr cr hr fr w5 b,
      @enrichment_run Stub.country_down Stub.lisboa Stub.place_fetched
        wr cr hr fr w5
      /\ @makeTravelInfoRequest Stub.country_down "Lisboa" Stub.w0 = (Ok b, w5)
      /\ weather b = match wr with
                     | Fulfilled v => Some v
                     | Rejected _ => None
                     end
      /\ countryInfo b = value_or_null cr
      /\ holidays b = value_or_null hr
      /\ (forall x,
             exchange b = Some x
             <-> exists fxRate i c rest,
                 fr = Fulfilled fxRate /\ truthy fxRate = true
                 /\ cr = Fulfilled (Some i) /\ currencies i = c :: rest
                 /\ code c <> ""%string
                 /\ x = mkExchange (code c) "BRL" fxRate).
Proof.
  assert (G : @geocodeCity Stub.country_down "Lisboa" Stub.w0
              = (Ok (Some Stub.lisboa), Stub.place_fetched))
    by (vm_compute; reflexivity).
  split; [exact G |].
  exact (@enrichment_isolates_branches Stub.country_down "Lisboa" Stub.w0
           Stub.lisboa Stub.place_fetched G).
Defined.

(** C6, as it was stated, fails.  With a country provider that answers only
    a request that comes right after one to the holidays provider, the
    country branch is refused at each of its five attempts and fails, and it
    alone; the exchange branch, whose own country lookup follows the
    holidays request, is answered and fulfils with the rate 6.5; and yet
    [exchange] is [null] in the bundle.  The answers are the same whether
    the branches run one after the other or side by side: started together,
    their first requests leave in the order weather, country, holidays,
    country, and the later attempts of the country branch come after a wait
    of 350 ms and more, behind the rate request or behind one another. *)
Lemma country_failure_empties_exchange :
  ~ @one_failure_spares_the_others Stub.country_down.
Proof.
  intros H.
  assert (G : @geocodeCity Stub.country_down "Lisboa" Stub.w0
              = (Ok (Some Stub.lisboa), Stub.place_fetched))
    by (vm_compute; reflexivity).
  destruct (@enrichment_runs Stub.country_down Stub.lisboa Stub.place_fetched)
    as (wr & cr & hr & fr & w5 & R).
  pose proof (@makeTravelInfoRequest_found Stub.country_down _ _ _ _ _ _ _ _ _
                G R) as E.
  specialize (H _ _ _ _ _ _ _ _ _ _ G R E). clear E.
  destruct R as (w2 & w3 & w4 & E1 & E2 & E3 & E4).
  vm_compute in E1. injection E1 as <- <-.
  vm_compute in E2. injection E2 as <- <-.
  vm_compute in E3. injection E3 as <- <-.
  vm_compute in E4. injection E4 as <- <-.
  destruct (H eq_refl) as (_ & _ & _ & X).
  destruct (X eq_refl) as (x & Hx & _).
  vm_compute in Hx. discriminate.
Qed.

Lemma holidays_scenario :
  @getHolidays Stub.up VNull Stub.w0 = (Ok None, Stub.w0)
  /\ @fetchJSON Stub.up (@holidays_url Stub.up 2026 (VStr "PT"))
       (options_timeout 12000) Stub.w0
     = (Ok Stub.doc_holidays, Stub.holidays_fetched)
  /\ @getHolidays Stub.up (VStr "PT") Stub.w0
     = (Ok (Some (mkHolidays 2026
                    [Stub.holiday "2026-12-01" "Restauracao da Independencia";
                     Stub.holiday "2026-12-08" "Imaculada Conceicao";
                     Stub.holiday "2026-12-25" "Natal"]
                    [Stub.holiday "2026-06-04" "Corpo de Deus";
                     Stub.holiday "2026-06-10" "Dia de Portugal";
                     Stub.holiday "2026-08-15" "Assuncao de Nossa Senhora";
                     Stub.holiday "2026-10-05" "Implantacao da Republica";
                     Stub.holiday "2026-11-01" "Dia de Todos-os-Santos"])),
        Stub.holidays_fetched).
Proof.
  assert (F : @fetchJSON Stub.up (@holidays_url Stub.up 2026 (VStr "PT"))
                (options_timeout 12000) Stub.w0
              = (Ok Stub.doc_holidays, Stub.holidays_fetched))
    by (vm_compute; reflexivity).
  split; [| split; [exact F |]].
  - exact (proj1 (@holidays_partition Stub.up VNull Stub.w0) eq_refl).
  - refine (proj1 (proj2 (@holidays_partition Stub.up (VStr "PT") Stub.w0)
                     _ Stub.holidays_fetched eq_refl F _)).
    repeat constructor.
Defined.

Lemma exchange_scenario :
  @makeTravelInfoRequest Stub.up "Lisboa" Stub.w0 = Stub.lisboa_run
  /\ exists b,
      fst Stub.lisboa_run = Ok b
      /\ exchange b = Some (mkExchange "EUR" "BRL" (VNum 6.5))
      /\ exists g w1 fr w4,
          @geocodeCity Stub.up "Lisboa" Stub.w0 = (Ok (Some g), w1)
          /\ settle (@exchangeBranch Stub.up (country_code g)) w4
             = (Ok fr, snd Stub.lisboa_run)
          /\ fr = Fulfilled (VNum 6.5).
Proof.
  assert (E : @makeTravelInfoRequest Stub.up "Lisboa" Stub.w0
              = Stub.lisboa_run)
    by (vm_compute; reflexivity).
  split; [exact E |].
  destruct (@exchange_needs_rate_and_currency Stub.up "Lisboa" Stub.w0 _ _ E)
    as (g & w1 & fr & w4 & G & E4 & X & _).
  eexists. split; [reflexivity |]. split; [reflexivity |].
  exists g, w1, fr, w4. split; [exact G |]. split; [exact E4 |].
  destruct (X _ eq_refl) as (_ & _ & _ & F & _). exact F.
Defined.

Lemma not_geocoded_scenario :
  @geocodeCity Stub.up "Nonexistent9999City" Stub.w0
  = (Ok None, snd (@geocodeCity Stub.up "Nonexistent9999City" Stub.w0))
  /\ @city_of Stub.up (VStr " Nonexistent9999City ")
     = "Nonexistent9999City"%string
  /\ @makeTravelInfoRequest Stub.up "Nonexistent9999City" Stub.w0
     = (Throw (not_geocoded "Nonexistent9999City"),
        snd (@geocodeCity Stub.up "Nonexistent9999City" Stub.w0))
  /\ @processItems Stub.up [VStr " Nonexistent9999City "] Stub.w0
     = (Ok [mkOutcome (VStr "Nonexistent9999City") false "error"
              (Some (err_message (not_geocoded "Nonexistent9999City")))
              "2026-11-02T10:00:00.000Z" None],
        snd (@geocodeCity Stub.up "Nonexistent9999City" Stub.w0)).
Proof.
  assert (G : @geocodeCity Stub.up "Nonexistent9999City" Stub.w0
              = (Ok None,
                 snd (@geocodeCity Stub.up "Nonexistent9999City" Stub.w0)))
    by (vm_compute; reflexivity).
  split; [exact G |]. split; [reflexivity |].
  destruct (proj1 (@bundle_only_after_geo Stub.up "Nonexistent9999City"
                     Stub.w0) _ G) as (T & P).
  split; [exact T |].
  apply (P (VStr " Nonexistent9999City ")); [reflexivity | discriminate].
Defined.

Lemma country_down_scenario :
  @makeTravelInfoRequest Stub.country_down "Lisboa" Stub.w0
  = Stub.lisboa_run_country_down
  /\ exists b g w1 wr cr hr fr e,
      fst Stub.lisboa_run_country_down = Ok b
      /\ @enrichment_run Stub.country_down g w1 wr cr hr fr
           (snd Stub.lisboa_run_country_down)
      /\ cr = Rejected e
      /\ fr = Fulfilled (VNum 6.5)
      /\ exchange b = None.
Proof.
  assert (E : @makeTravelInfoRequest Stub.country_down "Lisboa" Stub.w0
              = Stub.lisboa_run_country_down)
    by (vm_compute; reflexivity).
  split; [exact E |].
  destruct (@exchange_depends_on_country_branch Stub.country_down "Lisboa"
              Stub.w0 _ _ E)
    as (g & w1 & wr & cr & hr & fr & G & R & _ & N & _).
  pose proof R as (w2 & w3 & w4 & E1 & E2 & E3 & E4).
  vm_compute in G. injection G as <- <-.
  vm_compute in E1. injection E1 as <- <-.
  vm_compute in E2. injection E2 as <- <-.
  vm_compute in E3. injection E3 as <- <-.
  vm_compute in E4. injection E4 as <-.
  eexists. do 7 eexists.
  split; [reflexivity |]. split; [exact R |]. split; [reflexivity |].
  split; [reflexivity |]. exact (N _ eq_refl).
Defined.

(** * Further properties *)

(** ** The attempts of [fetchJSON] *)

Section Attempts.

Context {host : Host}.

(** How one attempt ends: with the parsed body of a 2xx answer; with an
    error kept for the next attempt, when attempts are left; with an error
    thrown, on the last attempt. *)
Lemma attempt_once_cases o u attempt w :
  (exists res txt v,
      answer (network (sent w) (request o u)) = Ok res
      /\ res_ok res = true /\ text res = Ok txt /\ JSON_parse txt = Ok v
      /\ attempt_once o u attempt w
         = (Ok (Done v), after_fetch (request o u) w))
  \/ (attempt <> retries o
      /\ exists e,
          attempt_once o u attempt w
          = (Ok (Again e), after_fetch (request o u) w))
  \/ (attempt = retries o
      /\ exists msg,
          attempt_once o u attempt w
          = (Throw (Error msg), after_fetch (request o u) w)).
Proof.
  unfold attempt_once, try_catch, bind, fetch, after_fetch, lift, ret, throw.
  destruct (answer (network (sent w) (request o u))) as [res|e] eqn:A.
  - destruct (res_ok res) eqn:K.
    + destruct (text res) as [txt|e] eqn:T.
      * destruct (JSON_parse txt) as [v|e] eqn:J.
        -- left. now exists res, txt, v.
        -- right. destruct (attempt =? retries o) eqn:L.
           ++ right. apply Z.eqb_eq in L. split; [exact L |].
              destruct (transient_message _); simpl; eauto.
           ++ left. apply Z.eqb_neq in L. split; [exact L |]. eauto.
      * right. destruct (attempt =? retries o) eqn:L.
        -- right. apply Z.eqb_eq in L. split; [exact L |].
           destruct (transient_message _); simpl; eauto.
        -- left. apply Z.eqb_neq in L. split; [exact L |].
           rewrite andb_false_r. eauto.
    + right. destruct (attempt =? retries o) eqn:L.
      * right. apply Z.eqb_eq in L. split; [exact L |].
        rewrite orb_true_r.
        destruct (transient_message _); simpl; eauto.
      * left. apply Z.eqb_neq in L. split; [exact L |].
        rewrite orb_false_r.
        destruct (retryable_status (status res)); simpl;
          [| rewrite andb_false_r]; eauto.
  - right. destruct (attempt =? retries o) eqn:L.
    + right. apply Z.eqb_eq in L. split; [exact L |].
      destruct (transient_message _); simpl; eauto.
    + left. apply Z.eqb_neq in L. split; [exact L |].
      rewrite andb_false_r. eauto.
Qed.

Lemma repeat_snoc {A} (x : A) n : (repeat x n ++ [x])%list = x :: repeat x n.
Proof. induction n as [|n IH]; simpl; [reflexivity | now rewrite IH]. Qed.

(** How the loop ends when its last turn is the last attempt: it throws
    after a request at every turn and a wait between two turns, or it returns
    the parsed body of the 2xx answer that the last request made got. *)
Lemma attempts_outcome o u n : forall attempt lastErr w r w',
  retries o = attempt + Z.of_nat n ->
  attempts o u (S n) attempt lastErr w = (r, w') ->
  lastGeocodeAt w' = lastGeocodeAt w
  /\ match r with
     | Throw e =>
         sent w' = sent w ++ repeat (request o u) (S n)
         /\ draws w' = (draws w + n)%nat
         /\ exists msg, e = Error msg
     | Ok v =>
         exists k res txt,
           (k <= n)%nat
           /\ sent w' = sent w ++ repeat (request o u) (S k)
           /\ draws w' = (draws w + k)%nat
           /\ answer (network (sent w ++ repeat (request o u) k)
                        (request o u)) = Ok res
           /\ res_ok res = true /\ text res = Ok txt
           /\ JSON_parse txt = Ok v
     end.
Proof.
  induction n as [|n IH]; intros attempt lastErr w r w' E H;
    rewrite attempts_S in H;
    destruct (attempt_once_cases o u attempt w)
      as [(res & txt & v & A & K & T & J & H1)
         | [(N & e & H1) | (L & msg & H1)]].
  - rewrite (bind_ok _ _ _ _ _ H1) in H. injection H as <- <-.
    split; [reflexivity |].
    exists 0%nat, res, txt. simpl. rewrite app_nil_r, Nat.add_0_r.
    repeat split; auto.
  - lia.
  - rewrite (bind_throw _ _ _ _ _ H1) in H. injection H as <- <-.
    split; [reflexivity |]. simpl. rewrite Nat.add_0_r. eauto.
  - rewrite (bind_ok _ _ _ _ _ H1) in H. injection H as <- <-.
    split; [reflexivity |].
    exists 0%nat, res, txt. simpl. rewrite app_nil_r, Nat.add_0_r.
    repeat split; auto; lia.
  - rewrite (bind_ok _ _ _ _ _ H1) in H.
    erewrite bind_ok in H by reflexivity.
    erewrite bind_ok in H by reflexivity.
    apply IH in H; [| lia]. cbn [sent draws lastGeocodeAt after_fetch] in H.
    destruct H as [G H]. split; [exact G |].
    destruct r as [v|e'].
    + destruct H as (k & res & txt & Hk & S' & D & A & K & T & J).
      exists (S k), res, txt.
      rewrite <- app_assoc in S'. rewrite <- app_assoc in A.
      repeat split; auto; try lia.
    + destruct H as (S' & D & M').
      rewrite <- app_assoc in S'. repeat split; auto. lia.
  - lia.
Qed.

End Attempts.

Section FetchOutcomes.

Context {host : Host}.

(** Once [withQuery] has built the URL, the retry loop of [fetchJSON] gives
    up only on its last attempt: when it throws, with a retry count that is
    not negative, it has given the request to [fetch] [retries + 1] times
    and has waited, with a draw of jitter, between two attempts and not
    after the last; and what it throws is a new [Error] that carries a
    message only. *)
Theorem retry_loop_throws_after_all_attempts (o : Options) (finalUrl : Url)
  (w : World) (e : Err) (w' : World) :
  0 <= retries o ->
  retry_loop o finalUrl w = (Throw e, w') ->
  sent w' = sent w ++ repeat (request o finalUrl) (Z.to_nat (retries o + 1))
  /\ draws w' = (draws w + Z.to_nat (retries o))%nat
  /\ exists msg, e = Error msg.
Proof.
  intros R H. unfold retry_loop in H.
  replace (Z.to_nat (retries o + 1)) with (S (Z.to_nat (retries o))) in * by lia.
  apply attempts_outcome in H; [| lia]. now destruct H.
Qed.

(** What [fetchJSON] returns is the parsed body of a 2xx answer, the answer
    to the last request it made; it made at most [retries + 1] of them, all
    the same, and waited once before each but the first. *)
Theorem fetchJSON_returns_parsed_body (url : string) (o : Options)
  (w : World) (v : value) (w' : World) :
  fetchJSON url o w = (Ok v, w') ->
  exists k res txt,
    Z.of_nat k <= retries o
    /\ sent w' = sent w ++ repeat (fetch_request url o) (S k)
    /\ draws w' = (draws w + k)%nat
    /\ answer (network (sent w ++ repeat (fetch_request url o) k)
                 (fetch_request url o)) = Ok res
    /\ res_ok res = true /\ text res = Ok txt /\ JSON_parse txt = Ok v.
Proof.
  intros H. unfold fetchJSON in H.
  destruct (Z.to_nat (retries o + 1)) as [|n] eqn:N; [discriminate |].
  apply attempts_outcome in H; [| lia].
  destruct H as (_ & k & res & txt & Hk & H).
  exists k, res, txt. split; [lia | exact H].
Qed.

Lemma fetchJSON_requests (url : string) (o : Options) (w : World) :
  exists k,
    (k <= Z.to_nat (retries o + 1))%nat
    /\ sent (snd (fetchJSON url o w))
       = sent w ++ repeat (fetch_request url o) k
    /\ lastGeocodeAt (snd (fetchJSON url o w)) = lastGeocodeAt w
    /\ ((1 <= k)%nat
        \/ (retries o < 0
            /\ fetchJSON url o w = (Throw (Error "Falha desconhecida"), w))).
Proof.
  unfold fetchJSON.
  destruct (Z.to_nat (retries o + 1)) as [|n] eqn:N.
  - exists 0%nat. simpl. rewrite app_nil_r.
    split; [lia |]. split; [reflexivity |]. split; [reflexivity |].
    right. split; [lia | reflexivity].
  - destruct (attempts o (withQuery url (params o)) (S n) 0 None w)
      as [r w'] eqn:H.
    apply attempts_outcome in H; [| lia]. destruct H as (G & H). simpl.
    destruct r as [v|e].
    + destruct H as (k & res & txt & Hk & S' & _).
      exists (S k). split; [lia |]. split; [exact S' |].
      split; [exact G |]. left. lia.
    + destruct H as (S' & _).
      exists (S n). split; [lia |]. split; [exact S' |].
      split; [exact G |]. left. lia.
Qed.

(** Once [withQuery] has built the URL, and whatever the network does, the
    retry loop of [fetchJSON] gives the same request to [fetch] between one
    and [retries + 1] times and leaves the rate gate alone; with a negative
    retry count the loop is not entered: no request is made and the [throw]
    after the loop fails with the error of an unknown failure, in the world
    the loop started from. *)
Theorem retry_loop_request_bound (o : Options) (finalUrl : Url) (w : World) :
  exists k,
    (k <= Z.to_nat (retries o + 1))%nat
    /\ sent (snd (retry_loop o finalUrl w))
       = sent w ++ repeat (request o finalUrl) k
    /\ lastGeocodeAt (snd (retry_loop o finalUrl w)) = lastGeocodeAt w
    /\ ((1 <= k)%nat
        \/ (retries o < 0
            /\ retry_loop o finalUrl w
               = (Throw (Error "Falha desconhecida"), w))).
Proof.
  unfold retry_loop.
  destruct (Z.to_nat (retries o + 1)) as [|n] eqn:N.
  - exists 0%nat. simpl. rewrite app_nil_r.
    split; [lia |]. split; [reflexivity |]. split; [reflexivity |].
    right. split; [lia | reflexivity].
  - destruct (attempts o finalUrl (S n) 0 None w) as [r w'] eqn:H.
    apply attempts_outcome in H; [| lia]. destruct H as (G & H). simpl.
    destruct r as [v|e].
    + destruct H as (k & res & txt & Hk & S' & _).
      exists (S k). split; [lia |]. split; [exact S' |].
      split; [exact G |]. left. lia.
    + destruct H as (S' & _).
      exists (S n). split; [lia |]. split; [exact S' |].
      split; [exact G |]. left. lia.
Qed.

End FetchOutcomes.

Section FirstSuccess.

Context {host : Host}.

Lemma attempt_once_parsed o u attempt w v :
  parsed (network (sent w) (request o u)) = Some v ->
  attempt_once o u attempt w = (Ok (Done v), after_fetch (request o u) w).
Proof.
  unfold parsed. intros P.
  unfold attempt_once, try_catch, bind, fetch, after_fetch, lift, ret.
  destruct (answer (network (sent w) (request o u))) as [res|e];
    [| discriminate].
  destruct (res_ok res); [| discriminate].
  destruct (text res) as [txt|e]; [| discriminate].
  destruct (JSON_parse txt) as [v'|e]; [| discriminate].
  now injection P as ->.
Qed.

Lemma attempt_once_not_parsed o u attempt w :
  parsed (network (sent w) (request o u)) = None ->
  attempt <> retries o ->
  exists e,
    attempt_once o u attempt w = (Ok (Again e), after_fetch (request o u) w).
Proof.
  intros P N.
  destruct (attempt_once_cases o u attempt w)
    as [(res & txt & v & A & K & T & J & _) | [(_ & e & H) | (L & _)]].
  - unfold parsed in P. rewrite A, K, T, J in P. discriminate.
  - now exists e.
  - contradiction.
Qed.

Lemma attempts_first_success o u N : forall n attempt lastErr w v,
  retries o = attempt + Z.of_nat n ->
  (N <= n)%nat ->
  (forall k, (k < N)%nat ->
             parsed (network (sent w ++ repeat (request o u) k) (request o u))
             = None) ->
  parsed (network (sent w ++ repeat (request o u) N) (request o u)) = Some v ->
  exists w',
    attempts o u (S n) attempt lastErr w = (Ok v, w')
    /\ sent w' = sent w ++ repeat (request o u) (S N)
    /\ draws w' = (draws w + N)%nat.
Proof.
  induction N as [|N IH]; intros n attempt lastErr w v E L F P;
    rewrite attempts_S.
  - simpl in P. rewrite app_nil_r in P.
    rewrite (bind_ok _ _ _ _ _ (attempt_once_parsed o u attempt w v P)).
    eexists. split; [reflexivity |]. simpl. now rewrite Nat.add_0_r.
  - destruct n as [|n]; [lia |].
    pose proof (F 0%nat ltac:(lia)) as F0. simpl in F0.
    rewrite app_nil_r in F0.
    destruct (attempt_once_not_parsed o u attempt w F0 ltac:(lia))
      as (e & H1).
    rewrite (bind_ok _ _ _ _ _ H1).
    erewrite bind_ok by reflexivity.
    erewrite bind_ok by reflexivity.
    match goal with
    | |- exists w', attempts _ _ _ _ _ ?w1 = _ /\ _ =>
        destruct (IH n (attempt + 1) (Some e) w1 v ltac:(lia) ltac:(lia))
          as (w' & E' & S' & D')
    end.
    + intros k Hk. cbn [sent after_fetch]. rewrite <- app_assoc.
      apply (F (S k)). lia.
    + cbn [sent after_fetch]. rewrite <- app_assoc. exact P.
    + exists w'. split; [exact E' |].
      cbn [sent draws after_fetch] in S', D'. rewrite <- app_assoc in S'.
      split; [exact S' | lia].
Qed.

(** The first answer that is a 2xx response with a body that parses wins,
    whatever came before it: when the first [N] answers are failures of any
    kind (a status that is not 2xx, a transport error, a body that is not
    JSON), [N] is within the retry count and the next answer parses to [v],
    [fetchJSON] returns [v] after [N + 1] requests and [N] waits. *)
Theorem fetchJSON_retries_until_success (url : string) (o : Options)
  (w : World) (N : nat) (v : value) :
  Z.of_nat N <= retries o ->
  (forall k, (k < N)%nat ->
             parsed (network (sent w ++ repeat (fetch_request url o) k)
                       (fetch_request url o)) = None) ->
  parsed (network (sent w ++ repeat (fetch_request url o) N)
            (fetch_request url o)) = Some v ->
  exists w',
    fetchJSON url o w = (Ok v, w')
    /\ sent w' = sent w ++ repeat (fetch_request url o) (S N)
    /\ draws w' = (draws w + N)%nat.
Proof.
  intros R F P. unfold fetchJSON.
  replace (Z.to_nat (retries o + 1)) with (S (Z.to_nat (retries o))) by lia.
  apply attempts_first_success; auto; lia.
Qed.

End FirstSuccess.

Section Backoff.

Context {host : Host}.

Lemma attempt_once_world o u attempt w :
  snd (attempt_once o u attempt w) = after_fetch (request o u) w.
Proof.
  destruct (attempt_once_cases o u attempt w)
    as [(res & txt & v & _ & _ & _ & _ & H) | [(_ & e & H) | (_ & msg & H)]];
    now rewrite H.
Qed.

Lemma attempts_clock o u n : forall attempt lastErr w r w',
  0 <= baseDelayMs o ->
  (forall hist q, 0 <= elapsed (network hist q)) ->
  (forall i, 0 <= random250 i) ->
  0 <= attempt ->
  retries o = attempt + Z.of_nat n ->
  attempts o u (S n) attempt lastErr w = (r, w') ->
  now w <= now w'
  /\ match r with
     | Throw _ =>
         now w + baseDelayMs o * (2 ^ retries o - 2 ^ attempt) <= now w'
     | Ok _ => True
     end.
Proof.
  induction n as [|n IH]; intros attempt lastErr w r w' B L J A E H;
    rewrite attempts_S in H;
    pose proof (attempt_once_world o u attempt w) as W;
    destruct (attempt_once o u attempt w) as [[[v|e]|e] w1] eqn:H1;
    simpl in W; subst w1;
    pose proof (L (sent w) (request o u)) as L0.
  - rewrite (bind_ok _ _ _ _ _ H1) in H. injection H as <- <-.
    simpl. split; [lia | exact I].
  - destruct (attempt_once_cases o u attempt w)
      as [(? & ? & ? & _ & _ & _ & _ & X) | [(N & _) | (_ & ? & X)]];
      [rewrite H1 in X; discriminate | lia | rewrite H1 in X; discriminate].
  - rewrite (bind_throw _ _ _ _ _ H1) in H. injection H as <- <-.
    simpl. replace (retries o) with attempt by lia. split; lia.
  - rewrite (bind_ok _ _ _ _ _ H1) in H. injection H as <- <-.
    simpl. split; [lia | exact I].
  - rewrite (bind_ok _ _ _ _ _ H1) in H.
    erewrite bind_ok in H by reflexivity.
    erewrite bind_ok in H by reflexivity.
    apply IH in H; try assumption; try lia.
    cbn [now after_fetch] in H. destruct H as [M H].
    pose proof (J (draws (after_fetch (request o u) w))) as J0.
    assert (P : 0 < 2 ^ attempt) by (apply Z.pow_pos_nonneg; lia).
    assert (Q : 0 <= baseDelayMs o * 2 ^ attempt)
      by (apply Z.mul_nonneg_nonneg; lia).
    split; [lia |].
    destruct r as [v|e']; [exact I |].
    rewrite Z.pow_add_r in H by lia. change (2 ^ 1) with 2 in H.
    rewrite !Z.mul_sub_distr_l in *. lia.
  - destruct (attempt_once_cases o u attempt w)
      as [(? & ? & ? & _ & _ & _ & _ & X) | [(_ & ? & X) | (N & _)]];
      [rewrite H1 in X; discriminate | rewrite H1 in X; discriminate | lia].
Qed.


End Backoff.

(** ** The rate gate *)

Lemma waitGeocodeSlot_effect (w : World) :
  exists w',
    waitGeocodeSlot w = (Ok tt, w')
    /\ lastGeocodeAt w' = now w'
    /\ now w' = Z.max (now w) (lastGeocodeAt w + GEOCODE_MIN_INTERVAL_MS)
    /\ sent w' = sent w
    /\ forall w2,
        lastGeocodeAt w2 = lastGeocodeAt w' ->
        lastGeocodeAt w' + GEOCODE_MIN_INTERVAL_MS
        <= lastGeocodeAt (snd (waitGeocodeSlot w2)).
Proof.
  assert (X : forall w0,
             waitGeocodeSlot w0
             = (Ok tt,
                mkWorld
                  (Z.max (now w0) (lastGeocodeAt w0 + GEOCODE_MIN_INTERVAL_MS))
                  (Z.max (now w0) (lastGeocodeAt w0 + GEOCODE_MIN_INTERVAL_MS))
                  (sent w0) (draws w0))).
  { intros w0.
    unfold waitGeocodeSlot, bind, Date_now, get_lastGeocodeAt,
      set_lastGeocodeAt, sleep, ret.
    cbn [now lastGeocodeAt sent draws].
    destruct (Z.max 0 (lastGeocodeAt w0 + GEOCODE_MIN_INTERVAL_MS - now w0)
              =? 0) eqn:Z0.
    - apply Z.eqb_eq in Z0. cbn [now lastGeocodeAt sent draws].
      replace (Z.max (now w0) (lastGeocodeAt w0 + GEOCODE_MIN_INTERVAL_MS))
        with (now w0) by lia.
      reflexivity.
    - apply Z.eqb_neq in Z0. cbn [now lastGeocodeAt sent draws].
      replace (Z.max (now w0) (lastGeocodeAt w0 + GEOCODE_MIN_INTERVAL_MS))
        with (now w0
              + Z.max 0 (lastGeocodeAt w0 + GEOCODE_MIN_INTERVAL_MS - now w0))
        by lia.
      reflexivity. }
  eexists. split; [apply X |]. cbn [now lastGeocodeAt sent].
  repeat split; try reflexivity.
  intros w2 E. rewrite X. cbn [snd lastGeocodeAt]. cbn [lastGeocodeAt] in E.
  lia.
Qed.

(** An acquisition of the rate gate returns with the gate's timestamp set to
    the clock, at least 1200 ms after the timestamp it found; it waits only
    for what is left of the interval, it makes no request, and the next
    acquisition, whatever the clock is by then, comes at least 1200 ms
    later. *)
Theorem waitGeocodeSlot_spacing (w : World) :
  exists w',
    waitGeocodeSlot w = (Ok tt, w')
    /\ lastGeocodeAt w' = now w'
    /\ now w' = Z.max (now w) (lastGeocodeAt w + GEOCODE_MIN_INTERVAL_MS)
    /\ sent w' = sent w
    /\ forall w2,
        lastGeocodeAt w2 = lastGeocodeAt w' ->
        lastGeocodeAt w' + GEOCODE_MIN_INTERVAL_MS
        <= lastGeocodeAt (snd (waitGeocodeSlot w2)).
Proof. apply waitGeocodeSlot_effect. Qed.

(** ** The query string *)

Lemma drop_key_absent k q :
  ~ In k (map fst q) -> drop_key k q = q.
Proof.
  induction q as [|[k' v'] q IH]; simpl; intros H; [reflexivity |].
  destruct (String.eqb k k') eqn:E.
  - apply String.eqb_eq in E. subst. tauto.
  - rewrite IH; tauto.
Qed.

Lemma set_key_absent k v q :
  ~ In k (map fst q) -> set_key k v q = q ++ [(k, v)].
Proof.
  induction q as [|[k' v'] q IH]; simpl; intros H; [reflexivity |].
  destruct (String.eqb k k') eqn:E.
  - apply String.eqb_eq in E. subst. tauto.
  - rewrite IH; tauto.
Qed.

Lemma keys_drop_key k k' q :
  In k' (map fst (drop_key k q)) <-> In k' (map fst q) /\ k' <> k.
Proof.
  induction q as [|[k0 v0] q IH]; simpl; [tauto |].
  destruct (String.eqb k k0) eqn:E.
  - apply String.eqb_eq in E. subst k0. rewrite IH.
    split; [tauto |]. intros [[H|H] N]; [congruence | tauto].
  - apply String.eqb_neq in E. simpl. rewrite IH.
    split; [| tauto]. intros [H|H]; [subst; split; [tauto | congruence] | tauto].
Qed.

Lemma NoDup_drop_key k q :
  NoDup (map fst q) -> NoDup (map fst (drop_key k q)).
Proof.
  induction q as [|[k0 v0] q IH]; simpl; intros H; [constructor |].
  inversion H as [|? ? N D]; subst.
  destruct (String.eqb k k0); [auto |].
  simpl. constructor; [| auto].
  rewrite keys_drop_key. tauto.
Qed.

Lemma keys_set_key k v k' q :
  In k' (map fst (set_key k v q)) <-> k' = k \/ In k' (map fst q).
Proof.
  induction q as [|[k0 v0] q IH]; simpl; [intuition |].
  destruct (String.eqb k k0) eqn:E.
  - apply String.eqb_eq in E. subst k0. simpl. rewrite keys_drop_key.
    destruct (String.eqb_spec k' k); intuition.
  - simpl. rewrite IH. intuition.
Qed.

Lemma NoDup_set_key k v q :
  NoDup (map fst q) -> NoDup (map fst (set_key k v q)).
Proof.
  induction q as [|[k0 v0] q IH]; simpl; intros H.
  - constructor; [simpl; tauto | constructor].
  - inversion H as [|? ? N D]; subst.
    destruct (String.eqb k k0) eqn:E.
    + apply String.eqb_eq in E. subst k0. simpl. constructor.
      * rewrite keys_drop_key. tauto.
      * now apply NoDup_drop_key.
    + apply String.eqb_neq in E. simpl. constructor; [| auto].
      rewrite keys_set_key. intros [X|X]; [congruence | tauto].
Qed.

Lemma entries_set_key k v k' v' q :
  In (k', v') (set_key k v q) -> (k', v') = (k, v) \/ In (k', v') q.
Proof.
  induction q as [|[k0 v0] q IH]; simpl; [intuition |].
  destruct (String.eqb k k0) eqn:E.
  - simpl. intros [H|H]; [now left |]. right. right.
    clear -H. induction q as [|[k1 v1] q IH]; simpl in *; [tauto |].
    destruct (String.eqb k k1); simpl in *; intuition.
  - simpl. intuition.
Qed.

Lemma entries_named_cons k k0 v0 q :
  entries_named k ((k0, v0) :: q)
  = if String.eqb k0 k then (k0, v0) :: entries_named k q
    else entries_named k q.
Proof. reflexivity. Qed.

Lemma entries_named_drop_key k k' q :
  entries_named k' (drop_key k q)
  = if String.eqb k k' then [] else entries_named k' q.
Proof.
  induction q as [|[k0 v0] q IH]; cbn [drop_key];
    [now destruct (String.eqb k k') |].
  destruct (String.eqb_spec k k0) as [<-|N].
  - rewrite IH, entries_named_cons. now destruct (String.eqb k k').
  - rewrite !entries_named_cons, IH.
    destruct (String.eqb_spec k k') as [<-|N']; [| reflexivity].
    destruct (String.eqb_spec k0 k); [congruence | reflexivity].
Qed.

Lemma entries_named_set_key_same k v q :
  entries_named k (set_key k v q) = [(k, v)].
Proof.
  induction q as [|[k0 v0] q IH]; cbn [set_key].
  - rewrite entries_named_cons. now rewrite String.eqb_refl.
  - destruct (String.eqb_spec k k0) as [<-|N].
    + rewrite entries_named_cons, String.eqb_refl, entries_named_drop_key.
      now rewrite String.eqb_refl.
    + rewrite entries_named_cons, IH.
      destruct (String.eqb_spec k0 k); [congruence | reflexivity].
Qed.

Lemma entries_named_set_key_other k v k' q :
  k' <> k -> entries_named k' (set_key k v q) = entries_named k' q.
Proof.
  intros N.
  induction q as [|[k0 v0] q IH]; cbn [set_key].
  - rewrite entries_named_cons.
    destruct (String.eqb_spec k k'); [congruence | reflexivity].
  - destruct (String.eqb_spec k k0) as [<-|N0].
    + rewrite !entries_named_cons, entries_named_drop_key.
      destruct (String.eqb_spec k k'); [congruence | reflexivity].
    + rewrite !entries_named_cons, IH. reflexivity.
Qed.

Section QueryString.

Context {host : Host}.

Lemma set_params_cons q0 kv ps :
  set_params q0 (kv :: ps) = set_params (set_param q0 kv) ps.
Proof. reflexivity. Qed.

Lemma set_params_untouched k ps : forall q0,
  (forall v, In (k, v) ps -> nullish v = true) ->
  entries_named k (set_params q0 ps) = entries_named k q0.
Proof.
  induction ps as [|[k0 v0] ps IH]; intros q0 H; [reflexivity |].
  rewrite set_params_cons, IH by (intros v I; apply H; now right).
  unfold set_param. simpl.
  destruct (nullish v0) eqn:U; [reflexivity |].
  apply entries_named_set_key_other. intros ->.
  rewrite (H v0) in U by now left. discriminate.
Qed.

(** The loop of [withQuery] appends what is new.  On a URL whose own search
    parameters bear none of the names of [params], and for parameters that
    are primitive values under distinct names, as the properties of an
    object are, the search parameters after the loop are those of the URL
    followed by the parameters that are neither [null] nor [undefined], in
    their order, each with the text of its value; the others leave no
    trace. *)
Theorem withQuery_appends_new_params (q0 : list (string * string))
  (ps : list (string * value)) :
  NoDup (map fst ps) ->
  Forall (fun kv => primitive (snd kv) = true) ps ->
  (forall k, In k (map fst ps) -> ~ In k (map fst q0)) ->
  set_params q0 ps
  = (q0 ++ map (fun kv => (fst kv, String_ (snd kv)))
             (filter (fun kv => negb (nullish (snd kv))) ps))%list.
Proof.
  intros D _. revert q0.
  induction ps as [|[k v] ps IH]; intros q0 F.
  - unfold set_params. simpl. now rewrite app_nil_r.
  - inversion D as [|? ? N D']; subst.
    rewrite set_params_cons. unfold set_param at 1.
    cbn [filter fst snd]. destruct (nullish v); cbn [negb map fst snd].
    + apply IH; [assumption |]. intros k' I. apply F. simpl. tauto.
    + rewrite set_key_absent by (apply F; simpl; tauto).
      rewrite IH; [now rewrite <- app_assoc | assumption |].
      intros k' I. rewrite map_app, in_app_iff. simpl.
      intros [X|[X|[]]]; [apply (F k'); simpl; tauto | congruence].
Qed.

(** The loop of [withQuery] sets, it does not add.  Whatever search
    parameters the URL had, and for parameters that are primitive values
    under distinct names: after the loop a parameter that is neither [null]
    nor [undefined] is in the query string exactly once, with the text of
    its value, in place of what the URL had under that name; the entries of
    the URL under every other name are what they were, a parameter that is
    [null] or [undefined] deleting nothing; and parameters that are all
    [null] or [undefined] leave the search parameters as they were. *)
Theorem withQuery_sets_each_param_once (q0 : list (string * string))
  (ps : list (string * value)) :
  NoDup (map fst ps) ->
  Forall (fun kv => primitive (snd kv) = true) ps ->
  (forall k v,
      In (k, v) ps -> nullish v = false ->
      entries_named k (set_params q0 ps) = [(k, String_ v)])
  /\ (forall k,
         (forall v, In (k, v) ps -> nullish v = true) ->
         entries_named k (set_params q0 ps) = entries_named k q0)
  /\ ((forall kv, In kv ps -> nullish (snd kv) = true) ->
      set_params q0 ps = q0).
Proof.
  intros D _. split; [| split].
  - revert q0. induction ps as [|[k0 v0] ps IH]; intros q0 k v I U;
      [destruct I |].
    inversion D as [|? ? N D']; subst.
    rewrite set_params_cons. destruct I as [I|I].
    + injection I as -> ->.
      rewrite set_params_untouched.
      * unfold set_param. simpl. rewrite U.
        apply entries_named_set_key_same.
      * intros v' I'. destruct N. apply (in_map fst) in I'. exact I'.
    + now apply IH.
  - intros k H. now apply set_params_untouched.
  - revert q0. induction ps as [|kv ps IH]; intros q0 H; [reflexivity |].
    rewrite set_params_cons. unfold set_param at 1.
    rewrite (H kv) by now left.
    inversion D; subst. apply IH; [assumption |].
    intros kv' I. apply H. now right.
Qed.

End QueryString.

(** ** The places of the fallback providers *)

Lemma bind_inv_ok {A B} (m : M A) (k : A -> M B) w b w' :
  bind m k w = (Ok b, w') ->
  exists a w1, m w = (Ok a, w1) /\ k a w1 = (Ok b, w').
Proof.
  unfold bind. destruct (m w) as [[a|e] w1]; [eauto | discriminate].
Qed.

Lemma lift_inv_ok {A} (r : Res A) w a w1 :
  lift r w = (Ok a, w1) -> r = Ok a /\ w1 = w.
Proof. unfold lift. intros [= -> ->]. auto. Qed.

Lemma or_else_null_shape v :
  or_else v VNull = VNull \/ truthy (or_else v VNull) = true.
Proof. unfold or_else. destruct (truthy v) eqn:T; auto. Qed.

Section FallbackPlaces.

Context {host : Host}.

Lemma upper_or_shape v dflt r :
  upper_or v dflt = Ok r ->
  r = dflt \/ exists s, r = VStr s /\ s <> ""%string.
Proof.
  unfold upper_or. destruct (or_else v (VStr "")); try discriminate.
  intros [= <-]. unfold or_else. simpl.
  destruct (String.eqb (toUpperCase s) "") eqn:E; simpl; [now left |].
  right. eexists. split; [reflexivity |]. now apply String.eqb_neq.
Qed.

Lemma short_name_shape v city n :
  short_name v city = Ok n ->
  exists s, n = VStr s /\ (city <> ""%string -> s <> ""%string).
Proof.
  unfold short_name. destruct v; try discriminate; intros [= <-]; eauto.
  unfold or_else. simpl.
  destruct (String.eqb (first_segment s) "") eqn:E; simpl; [eauto |].
  eexists. split; [reflexivity |]. intros _. now apply String.eqb_neq.
Qed.

Lemma reverseCountryCode_shape lat lon cc w r w' :
  reverseCountryCode lat lon cc w = (Ok r, w') ->
  r = cc \/ exists s, r = VStr s /\ s <> ""%string.
Proof.
  unfold reverseCountryCode. intros H.
  apply bind_inv_ok in H. destruct H as (_ & w1 & _ & H).
  unfold try_catch in H.
  match type of H with
  | context [bind ?m ?k w1] => destruct (bind m k w1) as [[a|e] w2] eqn:B
  end.
  - injection H as -> ->.
    apply bind_inv_ok in B. destruct B as (rev & w3 & _ & B).
    apply lift_inv_ok in B. destruct B as [B _].
    now apply upper_or_shape in B.
  - unfold ret in H. injection H as <- _. now left.
Qed.

Lemma fromNominatim_place city data w g w' :
  fromNominatim city data w = (Ok (Some g), w') ->
  fallback_place city g.
Proof.
  unfold fromNominatim.
  destruct data as [| | | | |[|r rest]|]; try discriminate. intros H.
  apply bind_inv_ok in H. destruct H as (r_lat & w1 & _ & H).
  apply bind_inv_ok in H. destruct H as (r_lon & w2 & _ & H).
  apply bind_inv_ok in H. destruct H as (r_address & w3 & _ & H).
  apply bind_inv_ok in H. destruct H as (cc0 & w4 & C0 & H).
  apply lift_inv_ok in C0. destruct C0 as [C0 _].
  apply bind_inv_ok in H. destruct H as (cc & w5 & C & H).
  apply bind_inv_ok in H. destruct H as (r_display & w6 & _ & H).
  apply bind_inv_ok in H. destruct H as (short & w7 & S & H).
  apply lift_inv_ok in S. destruct S as [S _].
  unfold ret in H. injection H as <- _.
  unfold fallback_place. simpl.
  split; [reflexivity |]. split; [eauto |].
  split; [| split; [apply or_else_null_shape | now apply short_name_shape in S]].
  apply upper_or_shape in C0.
  destruct (negb (truthy cc0) && PrimFloat.is_finite _ && PrimFloat.is_finite _)
    eqn:Cond.
  - apply reverseCountryCode_shape in C.
    destruct C as [-> | C]; [| now right].
    destruct C0 as [-> | (s & -> & N)]; [now left |].
    simpl in Cond. apply String.eqb_neq in N. rewrite N in Cond. discriminate.
  - unfold ret in C. injection C as <- _. exact C0.
Qed.

Lemma swallow_inv m w g w' :
  swallow m w = (Ok (Some g), w') -> m w = (Ok (Some g), w').
Proof.
  unfold swallow, try_catch. destruct (m w) as [[a|e] w1]; [auto |].
  unfold ret. discriminate.
Qed.

(** Only Open-Meteo gives a timezone.  A place that [geocodeCity] returns is
    the one the first provider found, or else it comes from Nominatim or
    geocode.maps.co and then its timezone is [null], its coordinates are
    numbers, its country code is [null] or a non-empty string, its country
    is [null] or truthy, and its name is a string, not empty unless the
    city asked for is. *)
Theorem geocodeCity_fallback_place (city : string) (w : World) (g : Geo)
  (w' : World) :
  geocodeCity city w = (Ok (Some g), w') ->
  searchOpenMeteo city w = (Ok (Some g), w') \/ fallback_place city g.
Proof.
  unfold geocodeCity. intros H.
  apply bind_inv_ok in H. destruct H as ([a|] & w1 & A & H).
  - unfold ret in H. injection H as -> ->. left. now apply swallow_inv.
  - right.
    apply bind_inv_ok in H. destruct H as (_ & w2 & _ & H).
    apply bind_inv_ok in H. destruct H as ([b|] & w3 & B & H).
    + unfold ret in H. injection H as -> ->. apply swallow_inv in B.
      unfold searchNominatim in B.
      apply bind_inv_ok in B. destruct B as (d & w4 & _ & B).
      now apply fromNominatim_place in B.
    + apply bind_inv_ok in H. destruct H as (_ & w4 & _ & H).
      apply bind_inv_ok in H. destruct H as ([c|] & w5 & C & H).
      * unfold ret in H. injection H as -> ->. apply swallow_inv in C.
        unfold searchMapsCo in C.
        apply bind_inv_ok in C. destruct C as (d & w6 & _ & C).
        now apply fromNominatim_place in C.
      * unfold ret in H. discriminate.
Qed.

End FallbackPlaces.

(** ** The reverse lookup *)

Section ReverseLookup.

Context {host : Host}.

Lemma reverseCountryCode_run lat lon cc w :
  exists r,
    reverseCountryCode lat lon cc w
    = (Ok r,
       snd (fetchJSON url_nominatim_reverse (reverse_options lat lon)
              (snd (waitGeocodeSlot w))))
    /\ (forall e wx,
           fetchJSON url_nominatim_reverse (reverse_options lat lon)
             (snd (waitGeocodeSlot w)) = (Throw e, wx) ->
           r = cc).
Proof.
  unfold reverseCountryCode.
  rewrite (bind_ok _ _ _ _ _ (waitGeocodeSlot_run w)).
  unfold try_catch, bind. fold (reverse_options lat lon).
  destruct (fetchJSON url_nominatim_reverse (reverse_options lat lon)
              (snd (waitGeocodeSlot w))) as [[rev|e] w1].
  - unfold lift.
    destruct (upper_or (opt_member (opt_member rev "address") "country_code")
                cc) as [r|e].
    + exists r. split; [reflexivity | discriminate].
    + exists cc. split; [reflexivity | discriminate].
  - exists cc. split; [reflexivity | auto].
Qed.

(** A record that carries a country code, or whose coordinates are not
    finite numbers, is turned into a place, or refused, on the spot: no
    reverse lookup is made, no request is issued and the rate gate is not
    taken; the country code of the place is the one of the record, in upper
    case, or [null]. *)
Theorem fromNominatim_without_reverse (city : string) (r : value)
  (rest : list value) (cc0 : value) (w : World)
  (res : Res (option Geo)) (w' : World) :
  nullish r = false ->
  upper_or (opt_member (member r "address") "country_code") VNull = Ok cc0 ->
  truthy cc0 = true
  \/ PrimFloat.is_finite (record_lat r) = false
  \/ PrimFloat.is_finite (record_lon r) = false ->
  fromNominatim city (VArr (r :: rest)) w = (res, w') ->
  w' = w /\ forall g, res = Ok (Some g) -> country_code g = cc0.
Proof.
  intros R C0 Cond H. unfold fromNominatim, get in H. rewrite R in H.
  rewrite (bind_ok _ _ _ (member r "lat") w eq_refl) in H.
  rewrite (bind_ok _ _ _ (member r "lon") w eq_refl) in H.
  rewrite (bind_ok _ _ _ (member r "address") w eq_refl) in H.
  rewrite C0 in H. rewrite (bind_ok _ _ _ cc0 w eq_refl) in H.
  fold (record_lat r) (record_lon r) in H.
  replace (negb (truthy cc0) && PrimFloat.is_finite (record_lat r)
           && PrimFloat.is_finite (record_lon r)) with false in H.
  - rewrite (bind_ok _ _ _ cc0 w eq_refl) in H.
    rewrite (bind_ok _ _ _ (member r "display_name") w eq_refl) in H.
    unfold bind, lift, ret in H.
    destruct (short_name (member r "display_name") city) as [n|e];
      injection H as <- <-; (split; [reflexivity |]).
    + intros g [= <-]. reflexivity.
    + discriminate.
  - destruct Cond as [T | [F | F]]; rewrite T || rewrite F; simpl;
      now rewrite ?andb_false_r.
Qed.

(** A record without a country code and with finite coordinates sets off
    one reverse lookup with those coordinates: after an acquisition of the
    rate gate, between one and five requests, all the same, go to the
    reverse endpoint of Nominatim, and nothing else is sent.  Whatever the
    lookup gives, the place is returned; when the lookup fails, its country
    code is [null]. *)
Theorem fromNominatim_reverse_lookup (city : string) (r : value)
  (rest : list value) (n : value) (w : World) :
  toUpperCase "" = ""%string ->
  nullish r = false ->
  truthy (opt_member (member r "address") "country_code") = false ->
  PrimFloat.is_finite (record_lat r) = true ->
  PrimFloat.is_finite (record_lon r) = true ->
  short_name (member r "display_name") city = Ok n ->
  exists cc w' k,
    fromNominatim city (VArr (r :: rest)) w
    = (Ok (Some (mkGeo n
                   (or_else
                      (or_else (opt_member (member r "address") "country")
                         VNull) VNull)
                   cc (VNum (record_lat r)) (VNum (record_lon r)) VNull)),
       w')
    /\ (1 <= k <= 5)%nat
    /\ sent w'
       = sent w
         ++ repeat (fetch_request url_nominatim_reverse
                      (reverse_options (record_lat r) (record_lon r))) k
    /\ lastGeocodeAt w + GEOCODE_MIN_INTERVAL_MS <= lastGeocodeAt w'
    /\ (forall e wx,
           fetchJSON url_nominatim_reverse
             (reverse_options (record_lat r) (record_lon r))
             (snd (waitGeocodeSlot w)) = (Throw e, wx) ->
           cc = VNull).
Proof.
  intros U R T FA FO S.
  destruct (reverseCountryCode_run (record_lat r) (record_lon r) VNull w)
    as (cc & RC & RF).
  destruct (fetchJSON_requests url_nominatim_reverse
              (reverse_options (record_lat r) (record_lon r))
              (snd (waitGeocodeSlot w)))
    as (k & K & SK & G & [P | [N _]]); [| discriminate].
  destruct (waitGeocodeSlot_effect w) as (w1 & W & L & NW & SW & _).
  rewrite W in *. cbn [snd] in *.
  eexists cc, _, k. split; [| split; [| split; [| split]]].
  - unfold fromNominatim, get. rewrite R.
    rewrite (bind_ok _ _ _ (member r "lat") w eq_refl).
    rewrite (bind_ok _ _ _ (member r "lon") w eq_refl).
    rewrite (bind_ok _ _ _ (member r "address") w eq_refl).
    assert (C0 : upper_or (opt_member (member r "address") "country_code")
                   VNull = Ok VNull).
    { unfold upper_or, or_else. rewrite T. rewrite U. reflexivity. }
    rewrite C0. rewrite (bind_ok _ _ _ VNull w eq_refl).
    fold (record_lat r) (record_lon r). rewrite FA, FO. cbn [truthy negb andb].
    rewrite (bind_ok _ _ _ _ _ RC).
    erewrite bind_ok by reflexivity. rewrite S.
    erewrite bind_ok by reflexivity. reflexivity.
  - split; [exact P | exact K].
  - rewrite SK, SW. reflexivity.
  - rewrite G, L, NW. lia.
  - exact RF.
Qed.

End ReverseLookup.

(** ** A place without a country code *)

Section NoCountryCode.

Context {host : Host}.

Lemma sends_getWeather lat lon tz :
  sends (fun q => target (r_url q) = url_forecast) (getWeather lat lon tz).
Proof.
  unfold getWeather. apply sends_bind; [apply sends_fetchJSON |].
  intros data. apply sends_ret.
Qed.

Lemma keeps_gate_getWeather lat lon tz : keeps_gate (getWeather lat lon tz).
Proof.
  unfold getWeather. apply keeps_gate_bind; [apply keeps_gate_fetchJSON |].
  intros data. apply keeps_gate_ret.
Qed.

(** For a place that came without a country code the enrichment asks the
    weather provider only: the country, holidays and exchange branches
    settle at once with [null], the three fields are [null] in the bundle,
    every request after the geocoding goes to the forecast endpoint and the
    rate gate is left alone. *)
Theorem enrichment_without_country_code (city : string) (w : World)
  (g : Geo) (w1 : World) :
  geocodeCity city w = (Ok (Some g), w1) ->
  truthy (country_code g) = false ->
  exists b w',
    makeTravelInfoRequest city w = (Ok b, w')
    /\ countryInfo b = None /\ holidays b = None /\ exchange b = None
    /\ only_sent (fun q => target (r_url q) = url_forecast) w1 w'
    /\ lastGeocodeAt w' = lastGeocodeAt w1.
Proof.
  intros G T.
  destruct (returns_settle
              (getWeather (latitude g) (longitude g) (timezone g)) w1)
    as (wr & w2 & E1).
  assert (R : enrichment_run g w1 wr (Fulfilled None) (Fulfilled None)
                (Fulfilled VNull) w2).
  { exists w2, w2, w2. split; [exact E1 |].
    unfold settle, getCountryInfo, getHolidays, exchangeBranch, bind,
      getCountryInfo.
    rewrite T. simpl. auto. }
  exists (assemble city g wr (Fulfilled None) (Fulfilled None)
            (Fulfilled VNull)), w2.
  split; [exact (makeTravelInfoRequest_found _ _ _ _ _ _ _ _ _ G R) |].
  repeat split.
  - pose proof (sends_settle _ _
                  (sends_getWeather (latitude g) (longitude g) (timezone g))
                  w1) as S.
    now rewrite E1 in S.
  - pose proof (keeps_gate_getWeather (latitude g) (longitude g) (timezone g)
                  w1) as K.
    unfold settle in E1.
    destruct (getWeather (latitude g) (longitude g) (timezone g) w1)
      as [[a|e] wx]; injection E1 as _ <-; exact K.
Qed.

End NoCountryCode.

(** ** The outcomes of a batch *)

Section Outcomes.

Context {host : Host}.

Lemma item_step_kind item w o w1 : item_step item w o w1 -> outcome_kind o.
Proof.
  intros [B | b w' N E | e w' N E].
  - right. left. unfold blank_outcome. simpl. auto.
  - left. unfold success_outcome. simpl.
    do 3 (split; [reflexivity |]). now exists b.
  - right. right. apply makeTravelInfoRequest_throws in E.
    destruct E as [-> _]. unfold failure_outcome. simpl.
    do 3 (split; [reflexivity |]).
    exists (city_of item). split; reflexivity.
Qed.

Lemma batch_steps_kinds items w rs w' :
  batch_steps items w rs w' -> Forall outcome_kind rs.
Proof.
  induction 1; constructor; [eapply item_step_kind; eassumption | assumption].
Qed.

Lemma one_outcome_per_input_aux items w :
  exists results w',
    processItems items w = (Ok results, w')
    /\ List.length results = List.length items.
Proof.
  destruct (processLoop_steps items w) as (rs & w' & B & L).
  exists rs, w'. split; [exact (L []) |].
  eapply batch_steps_length; eassumption.
Qed.

(** On a list of strings [processItems] returns, and each item ends in one
    of three ways and no other: a success that carries a bundle; the failure
    of a blank destination; the failure of a destination that no provider
    could geocode.  No error of a provider reaches an outcome in any other
    form. *)
Theorem outcomes_are_of_three_kinds (cities : list string) (w : World) :
  exists results w',
    processItems (map VStr cities) w = (Ok results, w')
    /\ Forall outcome_kind results.
Proof.
  destruct (processLoop_steps (map VStr cities) w) as (rs & w' & B & L).
  exists rs, w'. split; [exact (L []) |].
  eapply batch_steps_kinds; eassumption.
Qed.

(** A batch of strings can be cut anywhere: the outcomes of a list of
    strings are those of its first part followed by those of the rest, the
    rest being run in the world that the first part left. *)
Theorem processItems_app (a b : list string) (w : World) :
  exists ra wa rb wb,
    processItems (map VStr a) w = (Ok ra, wa)
    /\ processItems (map VStr b) wa = (Ok rb, wb)
    /\ processItems (map VStr (a ++ b)) w = (Ok (ra ++ rb), wb).
Proof.
  destruct (processLoop_steps (map VStr a) w) as (ra & wa & _ & La).
  destruct (processLoop_steps (map VStr b) wa) as (rb & wb & _ & Lb).
  exists ra, wa, rb, wb. unfold processItems.
  split; [exact (La []) |]. split; [exact (Lb []) |].
  rewrite map_app.
  rewrite (processLoop_app (map VStr a) (map VStr b) w ra wa La). simpl.
  apply Lb.
Qed.

End Outcomes.

(** ** The health probes and the endpoints *)

Section Health.

Context {host : Host}.

Lemma probe_step url expected rest w :
  probeAll ((url, expected) :: rest) w
  = if answers_with expected (network (sent w) (bare_request url [] 5000))
    then (Ok (Reachable url expected),
          after_fetch (bare_request url [] 5000) w)
    else probeAll rest (after_fetch (bare_request url [] 5000) w).
Proof.
  cbn [probeAll]. unfold bind at 1. unfold try_catch, bind, fetch, answers_with.
  fold (after_fetch (bare_request url [] 5000) w).
  destruct (answer (network (sent w) (bare_request url [] 5000)))
    as [res|e]; [| reflexivity].
  destruct (status res =? expected) eqn:E; [| reflexivity].
  apply Z.eqb_eq in E. now subst.
Qed.

Lemma externalHealthcheck_eq (w : World) :
  let w1 := after_fetch probe_google w in
  let w2 := after_fetch probe_cloudflare w1 in
  externalHealthcheck w
  = if answers_with 204 (network (sent w) probe_google)
    then (Ok (Reachable "https://www.google.com/generate_204" 204), w1)
    else if answers_with 200 (network (sent w1) probe_cloudflare)
         then (Ok (Reachable "https://cloudflare.com/cdn-cgi/trace" 200), w2)
         else (Ok Unreachable, w2).
Proof.
  unfold externalHealthcheck, health_tests. rewrite probe_step.
  fold probe_google. destruct (answers_with 204 _); [reflexivity |].
  rewrite probe_step. fold probe_cloudflare.
  destruct (answers_with 200 _); reflexivity.
Qed.

(** The reachability probe never throws and never tries more than it needs:
    when Google answers 204 it is the only request made; otherwise
    Cloudflare is asked too, and the probe succeeds exactly when it answers
    200.  Any other answer and any failure of a request count as no
    answer. *)
Theorem externalHealthcheck_outcome (w : World) :
  let w1 := after_fetch probe_google w in
  let w2 := after_fetch probe_cloudflare w1 in
  externalHealthcheck w
  = if answers_with 204 (network (sent w) probe_google)
    then (Ok (Reachable "https://www.google.com/generate_204" 204), w1)
    else if answers_with 200 (network (sent w1) probe_cloudflare)
         then (Ok (Reachable "https://cloudflare.com/cdn-cgi/trace" 200), w2)
         else (Ok Unreachable, w2).
Proof. apply externalHealthcheck_eq. Qed.

Lemma externalHealthcheck_returns : returns externalHealthcheck.
Proof.
  intros w. rewrite externalHealthcheck_eq.
  destruct (answers_with 204 _); [eauto |].
  destruct (answers_with 200 _); eauto.
Qed.

Lemma externalHealthcheck_unreachable w h w' :
  externalHealthcheck w = (Ok h, w') ->
  h = Unreachable ->
  answers_with 204 (network (sent w) probe_google) = false
  /\ answers_with 200
       (network (sent (after_fetch probe_google w)) probe_cloudflare) = false.
Proof.
  rewrite externalHealthcheck_eq. intros H ->.
  destruct (answers_with 204 _); [discriminate |].
  destruct (answers_with 200 _); [discriminate | auto].
Qed.

Lemma checkAll_report checks : forall acc w,
  exists rs w',
    checkAll checks acc w = (Ok (acc ++ rs), w')
    /\ map check_name rs = map fst checks
    /\ sent w'
       = sent w
         ++ map (fun c => bare_request (snd c) [("Accept-Language", "pt")] 8000)
             checks.
Proof.
  induction checks as [|[api url] rest IH]; intros acc w.
  - exists [], w. simpl. now rewrite !app_nil_r.
  - cbn [checkAll]. unfold bind at 1. unfold try_catch, bind, fetch.
    destruct (answer (network (sent w)
                        (bare_request url [("Accept-Language", "pt")] 8000)))
      as [res|e].
    + unfold ret.
      match goal with
      | |- context [checkAll rest ?a ?w1] =>
          destruct (IH a w1) as (rs & w' & E & N & S)
      end.
      exists (Answered api (status res) :: rs), w'.
      rewrite E. cbn [sent] in S. rewrite S. simpl.
      rewrite <- !app_assoc. rewrite N. auto.
    + unfold ret.
      match goal with
      | |- context [checkAll rest ?a ?w1] =>
          destruct (IH a w1) as (rs & w' & E & N & S)
      end.
      exists (Unanswered api (error_text e) :: rs), w'.
      rewrite E. cbn [sent] in S. rewrite S. simpl.
      rewrite <- !app_assoc. rewrite N. auto.
Qed.

(** The report of [/health/apis] always comes, with status 200 and one line
    for each of the six providers, in the order of the table, whether the
    provider answered or not; each provider is asked exactly once, without
    retry. *)
Theorem getHealthApis_report (w : World) :
  exists checks w',
    getHealthApis w = (Ok (mkHttp 200 (ApisReport checks)), w')
    /\ map check_name checks
       = ["open-meteo-geocode"; "open-meteo-forecast"; "restcountries";
          "nager-date"; "exchangerate-host"; "nominatim-fallback"]%string
    /\ sent w'
       = sent w
         ++ map (fun c => bare_request (snd c) [("Accept-Language", "pt")] 8000)
             (api_checks (getFullYear (now w))).
Proof.
  unfold getHealthApis, bind, Date_now.
  destruct (checkAll_report (api_checks (getFullYear (now w))) [] w)
    as (rs & w' & E & N & S).
  rewrite E. exists rs, w'. simpl. auto.
Qed.

End Health.

Section ProcessEndpoint.

Context {host : Host}.

(** A body without a list of items to process is answered at once and
    nothing is asked of the network: with 400 when [items] is missing, is
    not an array or is an empty array, and with 500 when there is no body to
    read [items] from. *)
Theorem postProcess_rejects_without_request (req_body : value) (w : World) :
  (forall x l, member req_body "items" <> VArr (x :: l)) ->
  exists r,
    postProcess req_body w = (Ok r, w)
    /\ statusCode r = (if nullish req_body then 500 else 400)
    /\ match json r with
       | ItemsMissing _ _ =>
           forall l, member req_body "items" <> VArr l
       | ItemsEmpty _ => member req_body "items" = VArr []
       | InternalError _ _ => nullish req_body = true
       | _ => False
       end.
Proof.
  intros H. unfold postProcess, try_catch, bind, lift.
  destruct (nullish req_body) eqn:N.
  - eexists. split; [reflexivity |]. simpl. auto.
  - destruct (member req_body "items") as [| | | | |[|x l]|] eqn:I;
      try (eexists; split; [reflexivity |]; simpl;
           split; [reflexivity |]; try reflexivity;
           intros l'; discriminate).
    destruct (H x l). reflexivity.
Qed.

(** A body with a list of strings that is not empty is answered 503 or 200
    and never 500.  It is 503 when neither probe of the reachability check
    was answered as expected, and then no item was processed: the only
    requests are the two probes.  Otherwise it is 200, with one outcome for
    each item and with [totalItems] their number. *)
Theorem postProcess_answers (req_body : value) (c : string)
  (cs : list string) (w : World) :
  member req_body "items" = VArr (map VStr (c :: cs)) ->
  exists r w',
    postProcess req_body w = (Ok r, w')
    /\ ((r = mkHttp 503
               (NoInternet "Sem acesso à internet a partir do servidor"
                  "Configure proxy/firewall/DNS ou rode local com egress liberado"
                  Unreachable)
         /\ externalHealthcheck w = (Ok Unreachable, w')
         /\ sent w' = sent w ++ [probe_google; probe_cloudflare])
        \/ (exists url st w1 results,
               externalHealthcheck w = (Ok (Reachable url st), w1)
               /\ processItems (map VStr (c :: cs)) w1 = (Ok results, w')
               /\ r = mkHttp 200
                        (Processed (Z.of_nat (List.length results)) results)
               /\ List.length results = List.length (c :: cs))).
Proof.
  intros I. unfold postProcess, try_catch, bind at 1, lift.
  assert (N : nullish req_body = false)
    by (destruct req_body; try reflexivity; discriminate).
  rewrite N, I. cbn [map].
  destruct (externalHealthcheck_returns w) as (h & w1 & EH).
  rewrite (bind_ok _ _ _ _ _ EH).
  destruct h as [url st|].
  - destruct (one_outcome_per_input_aux (VStr c :: map VStr cs) w1)
      as (rs & w' & EP & LEN).
    rewrite (bind_ok _ _ _ _ _ EP). unfold ret.
    eexists _, w'. split; [reflexivity |]. right.
    exists url, st, w1, rs. repeat split; auto.
    + now rewrite LEN.
    + rewrite LEN. simpl. now rewrite length_map.
  - unfold ret. eexists _, w1. split; [reflexivity |]. left.
    split; [reflexivity |]. split; [exact EH |].
    rewrite externalHealthcheck_eq in EH.
    destruct (answers_with 204 _); [discriminate |].
    destruct (answers_with 200 _); [discriminate |].
    injection EH as <-. simpl. now rewrite <- app_assoc.
Qed.

End ProcessEndpoint.

(** ** The currencies of a country *)

Lemma currencies_of_codes entries : forall cs,
  currencies_of entries = Ok cs -> map code cs = map fst entries.
Proof.
  induction entries as [|[k v] rest IH]; simpl; intros cs H.
  - now injection H as <-.
  - destruct (get v "name"); [| discriminate].
    destruct (get v "symbol"); [| discriminate].
    destruct (currencies_of rest) as [cs'|e]; [| discriminate].
    injection H as <-. simpl. f_equal. now apply IH.
Qed.

Lemma currencies_of_null entries k :
  In (k, VNull) entries -> exists e, currencies_of entries = Throw e.
Proof.
  induction entries as [|[k' v] rest IH]; simpl; [tauto |].
  intros [H|H].
  - injection H as -> ->. simpl. eauto.
  - destruct (get v "name"); [| eauto].
    destruct (get v "symbol"); [| eauto].
    destruct (IH H) as (e & ->). eauto.
Qed.

Section Countries.

Context {host : Host}.

(** The country lookup gives [null] only when it is given no country code,
    and then it asks nothing.  With a code, what it returns comes from the
    answer of the country provider, the first element when the answer is an
    array: the currencies are those of the [currencies] object, one for each
    key and in the order of the keys, the key being the code, and none when
    the object is missing; the capital is [null] or truthy.  A currency
    whose entry is [null] makes the lookup throw. *)
Theorem getCountryInfo_currencies (iso2 : value) (w : World) :
  (truthy iso2 = false -> getCountryInfo iso2 w = (Ok None, w))
  /\ (forall r w',
         truthy iso2 = true ->
         getCountryInfo iso2 w = (Ok r, w') ->
         exists info data,
           r = Some info
           /\ fetchJSON (country_url iso2) (options_timeout 12000) w
              = (Ok data, w')
           /\ (let c := match data with VArr _ => at0 data | _ => data end in
               map code (currencies info)
               = (if truthy (opt_member c "currencies")
                  then map fst (Object_entries (member c "currencies"))
                  else []))
           /\ (capital info = VNull \/ truthy (capital info) = true))
  /\ (forall data w' k,
         truthy iso2 = true ->
         fetchJSON (country_url iso2) (options_timeout 12000) w
         = (Ok data, w') ->
         (let c := match data with VArr _ => at0 data | _ => data end in
          truthy (opt_member c "currencies") = true
          /\ In (k, VNull) (Object_entries (member c "currencies"))) ->
         exists e, getCountryInfo iso2 w = (Throw e, w')).
Proof.
  split; [| split].
  - intros T. unfold getCountryInfo. now rewrite T.
  - intros r w' T H. unfold getCountryInfo in H. rewrite T in H.
    cbn [negb] in H. fold (country_url iso2) in H.
    apply bind_inv_ok in H. destruct H as (data & w1 & F & H).
    apply bind_inv_ok in H. destruct H as (cs & w2 & C & H).
    apply lift_inv_ok in C. destruct C as [C ->].
    unfold ret in H. injection H as <- <-.
    eexists _, data. split; [reflexivity |]. split; [exact F |].
    cbn [currencies capital]. split; [| apply or_else_null_shape].
    cbv zeta.
    destruct (truthy (opt_member _ "currencies")).
    + now apply currencies_of_codes.
    + now injection C as <-.
  - intros data w' k T F [TC I]. unfold getCountryInfo. rewrite T.
    cbn [negb]. fold (country_url iso2).
    rewrite (bind_ok _ _ _ _ _ F). rewrite TC.
    destruct (currencies_of_null _ _ I) as (e & ->).
    exists e. reflexivity.
Qed.

End Countries.

(** ** How many requests *)

Lemma sends_at_most_weaken {A} n n' (m : M A) :
  (n <= n')%nat -> sends_at_most n m -> sends_at_most n' m.
Proof.
  intros L H w. destruct (H w) as (new & E & B). exists new. split; [exact E | lia].
Qed.

Lemma sends_at_most_ret {A} (a : A) : sends_at_most 0 (ret a).
Proof. intros w. exists []. simpl. now rewrite app_nil_r. Qed.

Lemma sends_at_most_throw {A} e : sends_at_most 0 (@throw A e).
Proof. intros w. exists []. simpl. now rewrite app_nil_r. Qed.

Lemma sends_at_most_lift {A} (r : Res A) : sends_at_most 0 (lift r).
Proof. intros w. exists []. simpl. now rewrite app_nil_r. Qed.

Lemma sends_at_most_bind {A B} n1 n2 (m : M A) (k : A -> M B) :
  sends_at_most n1 m -> (forall a, sends_at_most n2 (k a)) ->
  sends_at_most (n1 + n2) (bind m k).
Proof.
  intros Hm Hk w. unfold bind. destruct (Hm w) as (new1 & E1 & B1).
  destruct (m w) as [[a|e] w1]; simpl in *.
  - destruct (Hk a w1) as (new2 & E2 & B2).
    exists (new1 ++ new2). rewrite E2, E1, app_assoc, length_app.
    split; [reflexivity | lia].
  - exists new1. split; [exact E1 | lia].
Qed.

Lemma sends_at_most_try_catch {A} n1 n2 (m : M A) (h : Err -> M A) :
  sends_at_most n1 m -> (forall e, sends_at_most n2 (h e)) ->
  sends_at_most (n1 + n2) (try_catch m h).
Proof.
  intros Hm Hh w. unfold try_catch. destruct (Hm w) as (new1 & E1 & B1).
  destruct (m w) as [[a|e] w1]; simpl in *.
  - exists new1. split; [exact E1 | lia].
  - destruct (Hh e w1) as (new2 & E2 & B2).
    exists (new1 ++ new2). rewrite E2, E1, app_assoc, length_app.
    split; [reflexivity | lia].
Qed.

Lemma sends_at_most_settle {A} n (m : M A) :
  sends_at_most n m -> sends_at_most n (settle m).
Proof.
  intros Hm w. unfold settle. destruct (Hm w) as (new & E & B).
  destruct (m w) as [[a|e] w1]; exists new; auto.
Qed.

Lemma sends_at_most_lift_bind {A B} n (r : Res A) (k : A -> M B) :
  (forall a, sends_at_most n (k a)) -> sends_at_most n (bind (lift r) k).
Proof.
  intros H. apply (sends_at_most_bind 0 n); [apply sends_at_most_lift | exact H].
Qed.

Section RequestCount.

Context {host : Host}.

Lemma sends_at_most_fetchJSON url o :
  retries o = 4 -> sends_at_most 5 (fetchJSON url o).
Proof.
  intros R w.
  destruct (fetchJSON_requests url o w) as (k & K & S & _).
  exists (repeat (fetch_request url o) k). split; [exact S |].
  rewrite repeat_length, R in *. simpl in K. lia.
Qed.

Lemma sends_at_most_waitGeocodeSlot : sends_at_most 0 waitGeocodeSlot.
Proof.
  intros w. destruct (waitGeocodeSlot_effect w) as (w' & E & _ & _ & S & _).
  rewrite E. exists []. simpl. now rewrite app_nil_r.
Qed.

Lemma sends_at_most_timestamp : sends_at_most 0 timestamp.
Proof. intros w. exists []. simpl. now rewrite app_nil_r. Qed.

Lemma sends_at_most_searchOpenMeteo city :
  sends_at_most 5 (searchOpenMeteo city).
Proof.
  unfold searchOpenMeteo.
  apply (sends_at_most_bind 5 0); [now apply sends_at_most_fetchJSON |].
  intros data. destruct (has_length _); [| apply sends_at_most_ret].
  repeat (apply sends_at_most_lift_bind; intros ?). apply sends_at_most_ret.
Qed.

Lemma sends_at_most_reverseCountryCode lat lon cc :
  sends_at_most 5 (reverseCountryCode lat lon cc).
Proof.
  unfold reverseCountryCode.
  apply (sends_at_most_bind 0 5); [apply sends_at_most_waitGeocodeSlot |].
  intros _. apply (sends_at_most_try_catch 5 0).
  - apply (sends_at_most_bind 5 0); [now apply sends_at_most_fetchJSON |].
    intros rev. apply sends_at_most_lift.
  - intros e. apply sends_at_most_ret.
Qed.

Lemma sends_at_most_fromNominatim city data :
  sends_at_most 5 (fromNominatim city data).
Proof.
  unfold fromNominatim.
  destruct data as [| | | | |[|r rest]|];
    try (apply (sends_at_most_weaken 0); [lia | apply sends_at_most_ret]).
  do 4 (apply sends_at_most_lift_bind; intros ?).
  apply (sends_at_most_bind 5 0).
  - destruct (_ && _).
    + apply sends_at_most_reverseCountryCode.
    + apply (sends_at_most_weaken 0); [lia | apply sends_at_most_ret].
  - intros cc. do 2 (apply sends_at_most_lift_bind; intros ?).
    apply sends_at_most_ret.
Qed.

Lemma sends_at_most_swallow n m :
  sends_at_most n m -> sends_at_most n (swallow m).
Proof.
  intros H. unfold swallow.
  apply (sends_at_most_weaken (n + 0)); [lia |].
  apply sends_at_most_try_catch; [exact H |].
  intros e. apply sends_at_most_ret.
Qed.

Lemma geocodeCity_request_bound_aux (city : string) :
  sends_at_most 25 (geocodeCity city).
Proof.
  unfold geocodeCity.
  apply (sends_at_most_bind 5 20);
    [apply sends_at_most_swallow, sends_at_most_searchOpenMeteo |].
  intros [g|]; [apply (sends_at_most_weaken 0); [lia | apply sends_at_most_ret] |].
  apply (sends_at_most_bind 0 20); [apply sends_at_most_waitGeocodeSlot |].
  intros _. apply (sends_at_most_bind 10 10).
  { apply sends_at_most_swallow. unfold searchNominatim.
    apply (sends_at_most_bind 5 5); [now apply sends_at_most_fetchJSON |].
    intros d. apply sends_at_most_fromNominatim. }
  intros [g|]; [apply (sends_at_most_weaken 0); [lia | apply sends_at_most_ret] |].
  apply (sends_at_most_bind 0 10); [apply sends_at_most_waitGeocodeSlot |].
  intros _. apply (sends_at_most_bind 10 0).
  { apply sends_at_most_swallow. unfold searchMapsCo.
    apply (sends_at_most_bind 5 5); [now apply sends_at_most_fetchJSON |].
    intros d. apply sends_at_most_fromNominatim. }
  intros [g|]; apply sends_at_most_ret.
Qed.

(** The geocoding of one destination never takes more than 25 requests:
    five attempts for each of the three searches, and five for the reverse
    lookup of the second and of the third provider. *)
Theorem geocodeCity_request_bound (city : string) (w : World) :
  exists new,
    sent (snd (geocodeCity city w)) = sent w ++ new
    /\ (List.length new <= 25)%nat.
Proof. apply geocodeCity_request_bound_aux. Qed.

Lemma sends_at_most_getCountryInfo iso2 :
  sends_at_most 5 (getCountryInfo iso2).
Proof.
  unfold getCountryInfo.
  destruct (negb (truthy iso2));
    [apply (sends_at_most_weaken 0); [lia | apply sends_at_most_ret] |].
  apply (sends_at_most_bind 5 0); [now apply sends_at_most_fetchJSON |].
  intros data. apply sends_at_most_lift_bind. intros cs.
  apply sends_at_most_ret.
Qed.

Lemma sends_at_most_getHolidays iso2 : sends_at_most 5 (getHolidays iso2).
Proof.
  unfold getHolidays.
  destruct (negb (truthy iso2));
    [apply (sends_at_most_weaken 0); [lia | apply sends_at_most_ret] |].
  apply (sends_at_most_bind 0 5).
  { intros w. exists []. simpl. now rewrite app_nil_r. }
  intros t. apply (sends_at_most_bind 5 0);
    [now apply sends_at_most_fetchJSON |].
  intros data. apply (sends_at_most_bind 0 0).
  { intros w. exists []. simpl. now rewrite app_nil_r. }
  intros t'. do 2 (apply sends_at_most_lift_bind; intros ?).
  apply sends_at_most_ret.
Qed.

Lemma sends_at_most_getExchangeRate b q :
  sends_at_most 5 (getExchangeRate b q).
Proof.
  unfold getExchangeRate.
  destruct (negb (truthy b));
    [apply (sends_at_most_weaken 0); [lia | apply sends_at_most_ret] |].
  apply (sends_at_most_bind 5 0); [now apply sends_at_most_fetchJSON |].
  intros data. apply sends_at_most_ret.
Qed.

Lemma sends_at_most_makeTravelInfoRequest city :
  sends_at_most 50 (makeTravelInfoRequest city).
Proof.
  unfold makeTravelInfoRequest.
  apply (sends_at_most_bind 25 25); [apply geocodeCity_request_bound_aux |].
  intros [g|];
    [| apply (sends_at_most_weaken 0); [lia | apply sends_at_most_throw]].
  apply (sends_at_most_bind 5 20).
  { apply sends_at_most_settle. unfold getWeather.
    apply (sends_at_most_bind 5 0); [now apply sends_at_most_fetchJSON |].
    intros data. apply sends_at_most_ret. }
  intros wr. apply (sends_at_most_bind 5 15);
    [apply sends_at_most_settle, sends_at_most_getCountryInfo |].
  intros cr. apply (sends_at_most_bind 5 10);
    [apply sends_at_most_settle, sends_at_most_getHolidays |].
  intros hr. apply (sends_at_most_bind 10 0).
  { apply sends_at_most_settle. unfold exchangeBranch.
    apply (sends_at_most_bind 5 5); [apply sends_at_most_getCountryInfo |].
    intros info. destruct (truthy _);
      [apply sends_at_most_getExchangeRate
      | apply (sends_at_most_weaken 0); [lia | apply sends_at_most_ret]]. }
  intros fr. apply sends_at_most_ret.
Qed.

Lemma sends_at_most_processLoop items : forall acc,
  sends_at_most (50 * List.length items) (processLoop items acc).
Proof.
  induction items as [|item rest IH]; intros acc.
  - apply sends_at_most_ret.
  - cbn [processLoop List.length].
    replace (50 * S (List.length rest))%nat
      with (50 + 50 * List.length rest)%nat by lia.
    destruct (String.eqb _ "").
    + apply (sends_at_most_weaken (0 + 50 * List.length rest)); [lia |].
      apply sends_at_most_bind; [apply sends_at_most_timestamp |].
      intros t. apply IH.
    + apply sends_at_most_bind; [| intros pushed; apply IH].
      apply (sends_at_most_try_catch 50 0).
      * apply (sends_at_most_bind 50 0);
          [apply sends_at_most_makeTravelInfoRequest |].
        intros b. apply (sends_at_most_bind 0 0);
          [apply sends_at_most_timestamp |].
        intros t. apply sends_at_most_ret.
      * intros e. apply (sends_at_most_bind 0 0);
          [apply sends_at_most_timestamp |].
        intros t. apply sends_at_most_ret.
Qed.

(** A batch never takes more than 50 requests for each of its items: the
    25 of the geocoding, five for the weather, five for the country, five
    for the holidays and ten for the exchange rate. *)
Theorem processItems_request_bound (items : list value) (w : World) :
  exists new,
    sent (snd (processItems items w)) = sent w ++ new
    /\ (List.length new <= 50 * List.length items)%nat.
Proof. apply sends_at_most_processLoop. Qed.

End RequestCount.

(** ** The scenarios of the further properties *)

Lemma gives_up_scenario :
  0 <= retries (options_timeout 12000)
  /\ exists e w',
      @retry_loop Stub.nowhere (options_timeout 12000)
        (mkUrl "https://restcountries.com/v3.1/alpha/ZZ" None) Stub.w0
      = (Throw e, w')
      /\ List.length (sent w') = 5%nat
      /\ draws w' = 4%nat
      /\ exists msg, e = Error msg.
Proof.
  assert (R : 0 <= retries (options_timeout 12000)) by discriminate.
  split; [exact R |].
  destruct (@retry_loop Stub.nowhere (options_timeout 12000)
              (mkUrl "https://restcountries.com/v3.1/alpha/ZZ" None) Stub.w0)
    as [[v|e] w'] eqn:E;
    [vm_compute in E; discriminate |].
  destruct (@retry_loop_throws_after_all_attempts Stub.nowhere _ _ _ _ _ R E)
    as (S & D & M).
  exists e, w'. split; [reflexivity |].
  rewrite S, D. split; [reflexivity |]. split; [reflexivity | exact M].
Defined.

Lemma parsed_body_scenario :
  @fetchJSON Stub.up url_open_meteo (open_meteo_options "Lisboa") Stub.w0
  = (Ok Stub.doc_place, Stub.place_fetched)
  /\ exists k res txt,
      Z.of_nat k <= 4
      /\ sent Stub.place_fetched
         = sent Stub.w0
           ++ repeat (@fetch_request Stub.up url_open_meteo
                        (open_meteo_options "Lisboa")) (S k)
      /\ draws Stub.place_fetched = (draws Stub.w0 + k)%nat
      /\ answer (@network Stub.up
                   (sent Stub.w0
                      ++ repeat (@fetch_request Stub.up url_open_meteo
                                   (open_meteo_options "Lisboa")) k)
                   (@fetch_request Stub.up url_open_meteo
                      (open_meteo_options "Lisboa"))) = Ok res
      /\ res_ok res = true /\ text res = Ok txt
      /\ @JSON_parse Stub.up txt = Ok Stub.doc_place.
Proof.
  assert (F : @fetchJSON Stub.up url_open_meteo (open_meteo_options "Lisboa")
                Stub.w0
              = (Ok Stub.doc_place, Stub.place_fetched))
    by (vm_compute; reflexivity).
  split; [exact F |].
  exact (@fetchJSON_returns_parsed_body Stub.up _ _ _ _ _ F).
Defined.

Lemma warming_up_scenario :
  exists w',
    @fetchJSON Stub.warming_up url_open_meteo (open_meteo_options "Lisboa")
      Stub.w0 = (Ok Stub.doc_place, w')
    /\ sent w'
       = sent Stub.w0
         ++ repeat (@fetch_request Stub.warming_up url_open_meteo
                      (open_meteo_options "Lisboa")) 3
    /\ draws w' = (draws Stub.w0 + 2)%nat.
Proof.
  apply (@fetchJSON_retries_until_success Stub.warming_up url_open_meteo
           (open_meteo_options "Lisboa") Stub.w0 2 Stub.doc_place).
  - discriminate.
  - intros [|[|k]] Hk; [reflexivity | reflexivity | lia].
  - reflexivity.
Defined.


Lemma defined_params_scenario :
  @set_params Stub.up [("q", "1"); ("q", "3")]%string
    [("lat", VNum 38.75); ("format", VStr "jsonv2"); ("email", VUndef)]
  = [("q", "1"); ("q", "3"); ("lat", "38.75"); ("format", "jsonv2")]%string.
Proof.
  apply (@withQuery_appends_new_params Stub.up).
  - repeat constructor; simpl; intuition discriminate.
  - repeat constructor.
  - simpl. intros k [<-|[<-|[<-|[]]]]; intuition discriminate.
Defined.

Lemma set_param_scenario :
  entries_named "q"
    (@set_params Stub.up [("q", "1"); ("x", "0"); ("q", "3")]%string
       [("q", VNum 7); ("x", VNull)])
  = [("q", "7")]%string
  /\ entries_named "x"
       (@set_params Stub.up [("q", "1"); ("x", "0"); ("q", "3")]%string
          [("q", VNum 7); ("x", VNull)])
     = [("x", "0")]%string.
Proof.
  assert (D : NoDup (map fst [("q", VNum 7); ("x", VNull)]%string))
    by (repeat constructor; simpl; intuition discriminate).
  assert (P : Forall (fun kv : string * value => primitive (snd kv) = true)
                [("q", VNum 7); ("x", VNull)]%string)
    by (repeat constructor).
  destruct (@withQuery_sets_each_param_once Stub.up
              [("q", "1"); ("x", "0"); ("q", "3")]%string
              [("q", VNum 7); ("x", VNull)]%string D P) as (A & B & _).
  split.
  - apply (A "q"%string (VNum 7)); [now left | reflexivity].
  - apply (B "x"%string).
    intros v [H|[H|[]]]; [discriminate | now injection H as <-].
Defined.

Lemma fallback_place_scenario :
  @geocodeCity Stub.second "Lisboa" Stub.w0 = Stub.second_b
  /\ (@searchOpenMeteo Stub.second "Lisboa" Stub.w0
      = (Ok (Some (mkGeo (VStr "Lisboa") (VStr "Portugal") (VStr "PT")
                     (VNum 38.75) (VNum (-9.125)) VNull)),
         snd Stub.second_b)
      \/ fallback_place "Lisboa"
           (mkGeo (VStr "Lisboa") (VStr "Portugal") (VStr "PT")
              (VNum 38.75) (VNum (-9.125)) VNull)).
Proof.
  assert (G : @geocodeCity Stub.second "Lisboa" Stub.w0 = Stub.second_b)
    by (vm_compute; reflexivity).
  split; [exact G |].
  exact (@geocodeCity_fallback_place Stub.second "Lisboa" Stub.w0 _ _ G).
Defined.

Lemma without_reverse_scenario :
  @fromNominatim Stub.nowhere "Lisboa" (VArr [Stub.record_with_code]) Stub.w0
  = (Ok (Some (mkGeo (VStr "Lisboa") (VStr "Portugal") (VStr "PT")
                 (VNum 38.75) (VNum (-9.125)) VNull)), Stub.w0)
  /\ (Stub.w0 = Stub.w0
      /\ forall g,
          Ok (Some (mkGeo (VStr "Lisboa") (VStr "Portugal") (VStr "PT")
                      (VNum 38.75) (VNum (-9.125)) VNull)) = Ok (Some g) ->
          country_code g = VStr "PT").
Proof.
  assert (F : @fromNominatim Stub.nowhere "Lisboa"
                (VArr [Stub.record_with_code]) Stub.w0
              = (Ok (Some (mkGeo (VStr "Lisboa") (VStr "Portugal") (VStr "PT")
                             (VNum 38.75) (VNum (-9.125)) VNull)), Stub.w0))
    by (vm_compute; reflexivity).
  split; [exact F |].
  exact (@fromNominatim_without_reverse Stub.nowhere "Lisboa"
           Stub.record_with_code [] (VStr "PT") Stub.w0 _ _
           eq_refl eq_refl (or_introl eq_refl) F).
Defined.

Lemma reverse_lookup_scenario :
  exists cc w' k,
    @fromNominatim Stub.nowhere "Lisboa" (VArr [Stub.record_without_code])
      Stub.w0
    = (Ok (Some (mkGeo (VStr "Lisboa") (VStr "Portugal") cc
                   (VNum 38.75) (VNum (-9.125)) VNull)), w')
    /\ (1 <= k <= 5)%nat
    /\ cc = VNull
    /\ List.length (sent w') = k.
Proof.
  destruct (@fromNominatim_reverse_lookup Stub.nowhere "Lisboa"
              Stub.record_without_code [] (VStr "Lisboa") Stub.w0
              eq_refl eq_refl eq_refl eq_refl eq_refl eq_refl)
    as (cc & w' & k & F & K & S & _ & N).
  exists cc, w', k. split; [exact F |]. split; [exact K |]. split.
  - destruct (@fetchJSON Stub.nowhere url_nominatim_reverse
                (@reverse_options Stub.nowhere
                   (@record_lat Stub.nowhere Stub.record_without_code)
                   (@record_lon Stub.nowhere Stub.record_without_code))
                (snd (waitGeocodeSlot Stub.w0))) as [[v|e] wx] eqn:E;
      [vm_compute in E; discriminate |].
    exact (N e wx eq_refl).
  - rewrite S. simpl. apply repeat_length.
Defined.

Lemma no_country_code_scenario :
  @geocodeCity Stub.no_code "Null Island" Stub.w0
  = (Ok (Some Stub.null_island), Stub.no_code_fetched)
  /\ truthy (country_code Stub.null_island) = false
  /\ exists b w',
      @makeTravelInfoRequest Stub.no_code "Null Island" Stub.w0 = (Ok b, w')
      /\ countryInfo b = None /\ holidays b = None /\ exchange b = None
      /\ only_sent (fun q => target (r_url q) = url_forecast)
           Stub.no_code_fetched w'
      /\ lastGeocodeAt w' = lastGeocodeAt Stub.no_code_fetched.
Proof.
  assert (G : @geocodeCity Stub.no_code "Null Island" Stub.w0
              = (Ok (Some Stub.null_island), Stub.no_code_fetched))
    by (vm_compute; reflexivity).
  split; [exact G |]. split; [reflexivity |].
  exact (@enrichment_without_country_code Stub.no_code _ _ _ _ G eq_refl).
Defined.

Lemma rejected_body_scenario :
  (forall x l,
      member (VObj [("items", VStr "Lisboa")]) "items" <> VArr (x :: l))
  /\ exists r,
      @postProcess Stub.up (VObj [("items", VStr "Lisboa")]) Stub.w0
      = (Ok r, Stub.w0)
      /\ statusCode r = 400.
Proof.
  assert (H : forall x l,
             member (VObj [("items", VStr "Lisboa")]) "items"
             <> VArr (x :: l))
    by (intros x l; discriminate).
  split; [exact H |].
  destruct (@postProcess_rejects_without_request Stub.up _ Stub.w0 H)
    as (r & E & S & _).
  exists r. split; [exact E | exact S].
Defined.

Lemma process_endpoint_scenario :
  member (VObj [("items", VArr [VStr "Lisboa"; VStr ""])]) "items"
  = VArr [VStr "Lisboa"; VStr ""]
  /\ (exists r w',
         @postProcess Stub.online
           (VObj [("items", VArr [VStr "Lisboa"; VStr ""])]) Stub.w0
         = (Ok r, w')
         /\ statusCode r = 200
         /\ exists results, json r = Processed 2 results)
  /\ (exists r w',
         @postProcess Stub.up
           (VObj [("items", VArr [VStr "Lisboa"; VStr ""])]) Stub.w0
         = (Ok r, w')
         /\ statusCode r = 503
         /\ sent w' = [probe_google; probe_cloudflare]).
Proof.
  split; [reflexivity |]. split.
  - destruct (@postProcess_answers Stub.online
                (VObj [("items", VArr [VStr "Lisboa"; VStr ""])])
                "Lisboa" [""%string] Stub.w0 eq_refl)
      as (r & w' & E & [(_ & H & _) | (url & st & w1 & rs & _ & _ & -> & L)]).
    + vm_compute in H. discriminate.
    + eexists. exists w'. split; [exact E |]. split; [reflexivity |].
      exists rs. simpl. now rewrite L.
  - destruct (@postProcess_answers Stub.up
                (VObj [("items", VArr [VStr "Lisboa"; VStr ""])])
                "Lisboa" [""%string] Stub.w0 eq_refl)
      as (r & w' & E & [(-> & _ & S) | (url & st & w1 & rs & H & _)]).
    + eexists. exists w'. split; [exact E |].
      split; [reflexivity | exact S].
    + vm_compute in H. discriminate.
Defined.

Lemma country_scenario :
  @getCountryInfo Stub.up VNull Stub.w0 = (Ok None, Stub.w0)
  /\ exists info,
      @getCountryInfo Stub.up (VStr "PT") Stub.w0
      = (Ok (Some info), Stub.country_fetched)
      /\ map code (currencies info) = ["EUR"%string]
      /\ capital info = VStr "Lisbon".
Proof.
  destruct (@getCountryInfo_currencies Stub.up (VStr "PT") Stub.w0)
    as (_ & H & _).
  split.
  - exact (proj1 (@getCountryInfo_currencies Stub.up VNull Stub.w0) eq_refl).
  - assert (E : @getCountryInfo Stub.up (VStr "PT") Stub.w0
                = (fst (@getCountryInfo Stub.up (VStr "PT") Stub.w0),
                   Stub.country_fetched))
      by (vm_compute; reflexivity).
    destruct (fst (@getCountryInfo Stub.up (VStr "PT") Stub.w0))
      as [r|e] eqn:F; [| vm_compute in F; discriminate].
    destruct (H r _ eq_refl E) as (info & data & -> & FJ & C & _).
    exists info. split; [exact E |].
    vm_compute in F. injection F as <-. split; reflexivity.
Defined.

(** ** The two country lookups of an enrichment *)

Lemma settle_world {A} (m : M A) w : snd (settle m w) = snd (m w).
Proof. unfold settle. now destruct (m w) as [[a|e] w1]. Qed.

Lemma sends_anything {A} (m : M A) w :
  sends (fun _ => True) m -> exists new, sent (snd (m w)) = sent w ++ new.
Proof. intros H. destruct (H w) as (new & E & _). now exists new. Qed.

Section CountryTwice.

Context {host : Host}.

Lemma getCountryInfo_world iso2 w :
  truthy iso2 = true ->
  snd (getCountryInfo iso2 w)
  = snd (fetchJSON (country_url iso2) (options_timeout 12000) w).
Proof.
  intros T. unfold getCountryInfo. rewrite T. cbn [negb].
  fold (country_url iso2). unfold bind.
  destruct (fetchJSON (country_url iso2) (options_timeout 12000) w)
    as [[data|e] w1]; [| reflexivity].
  unfold lift. destruct (if truthy _ then _ else _); reflexivity.
Qed.

Lemma getCountryInfo_requests iso2 w :
  truthy iso2 = true ->
  exists k,
    (1 <= k)%nat
    /\ sent (snd (getCountryInfo iso2 w))
       = sent w
         ++ repeat (fetch_request (country_url iso2) (options_timeout 12000))
              k.
Proof.
  intros T. rewrite (getCountryInfo_world _ _ T).
  destruct (fetchJSON_requests (country_url iso2) (options_timeout 12000) w)
    as (k & _ & S & _ & [K | [N _]]); [| discriminate].
  now exists k.
Qed.

Lemma sends_any_getHolidays iso2 : sends (fun _ => True) (getHolidays iso2).
Proof.
  unfold getHolidays. destruct (negb (truthy iso2)); frame.
  eapply sends_weaken; [| apply sends_fetchJSON]. auto.
Qed.

Lemma sends_any_getExchangeRate b q :
  sends (fun _ => True) (getExchangeRate b q).
Proof.
  unfold getExchangeRate. destruct (negb (truthy b)); frame.
  eapply sends_weaken; [| apply sends_fetchJSON]. auto.
Qed.

(** The country provider is asked twice for every place with a country
    code: once by the country branch and once more by the exchange branch,
    which does not reuse the answer.  Among the requests of the enrichment,
    the request of the country lookup comes in two runs of at least one
    request each, the holidays requests between them. *)
Theorem enrichment_asks_country_twice (city : string) (w : World) (g : Geo)
  (w1 : World) (b : Bundle) (w' : World) :
  geocodeCity city w = (Ok (Some g), w1) ->
  truthy (country_code g) = true ->
  makeTravelInfoRequest city w = (Ok b, w') ->
  exists before n1 between n2 after,
    (1 <= n1)%nat /\ (1 <= n2)%nat
    /\ sent w'
       = sent w1 ++ before
         ++ repeat (fetch_request (country_url (country_code g))
                      (options_timeout 12000)) n1
         ++ between
         ++ repeat (fetch_request (country_url (country_code g))
                      (options_timeout 12000)) n2
         ++ after.
Proof.
  intros G T E.
  destruct (enrichment_runs g w1) as (wr & cr & hr & fr & w5 & R).
  rewrite (makeTravelInfoRequest_found _ _ _ _ _ _ _ _ _ G R) in E.
  injection E as _ <-.
  destruct R as (w2 & w3 & w4 & E1 & E2 & E3 & E4).
  apply (f_equal snd) in E1, E2, E3, E4. cbn [snd] in E1, E2, E3, E4.
  rewrite settle_world in E1. rewrite settle_world in E2.
  rewrite settle_world in E3. rewrite settle_world in E4.
  destruct (sends_anything
              (getWeather (latitude g) (longitude g) (timezone g)) w1)
    as (before & S1).
  { eapply sends_weaken; [| apply sends_getWeather]. auto. }
  destruct (getCountryInfo_requests (country_code g) w2 T) as (n1 & N1 & S2).
  destruct (sends_anything (getHolidays (country_code g)) w3
              (sends_any_getHolidays _)) as (between & S3).
  destruct (getCountryInfo_requests (country_code g) w4 T) as (n2 & N2 & S4).
  assert (S5 : exists after,
             sent w5 = sent (snd (getCountryInfo (country_code g) w4))
                       ++ after).
  { rewrite <- E4. unfold exchangeBranch, bind.
    destruct (getCountryInfo (country_code g) w4) as [[info|e] wi];
      [| exists []; cbn [snd]; now rewrite app_nil_r].
    cbn [snd].
    destruct (truthy (or_else (first_currency_code info) VNull)).
    - apply sends_anything, sends_any_getExchangeRate.
    - exists []. unfold ret. cbn [snd]. now rewrite app_nil_r. }
  destruct S5 as (after & S5).
  exists before, n1, between, n2, after.
  split; [exact N1 |]. split; [exact N2 |].
  rewrite S5, S4, <- E3, S3, <- E2, S2, <- E1, S1.
  now rewrite <- !app_assoc.
Qed.

End CountryTwice.

Lemma country_twice_scenario :
  @geocodeCity Stub.up "Lisboa" Stub.w0
  = (Ok (Some Stub.lisboa), Stub.place_fetched)
  /\ truthy (country_code Stub.lisboa) = true
  /\ @makeTravelInfoRequest Stub.up "Lisboa" Stub.w0 = Stub.lisboa_run
  /\ exists before n1 between n2 after,
      (1 <= n1)%nat /\ (1 <= n2)%nat
      /\ sent (snd Stub.lisboa_run)
         = sent Stub.place_fetched ++ before
           ++ repeat (@fetch_request Stub.up
                        (@country_url Stub.up (VStr "PT"))
                        (options_timeout 12000)) n1
           ++ between
           ++ repeat (@fetch_request Stub.up
                        (@country_url Stub.up (VStr "PT"))
                        (options_timeout 12000)) n2
           ++ after.
Proof.
  assert (G : @geocodeCity Stub.up "Lisboa" Stub.w0
              = (Ok (Some Stub.lisboa), Stub.place_fetched))
    by (vm_compute; reflexivity).
  assert (E : @makeTravelInfoRequest Stub.up "Lisboa" Stub.w0
              = Stub.lisboa_run)
    by (vm_compute; reflexivity).
  split; [exact G |]. split; [reflexivity |]. split; [exact E |].
  exact (@enrichment_asks_country_twice Stub.up _ _ _ _ _ _ G eq_refl E).
Defined.
